(** * KML-Viewer: the parsing and geometry core of [src/src/App.js]

    The component [KMLViewer] reads a KML file, lets [xml2js] turn it into a
    tree of JavaScript values, walks the placemarks ([processKMLData]),
    parses coordinate strings ([parseCoordinates]), validates pairs
    ([isValidCoordinate]) and measures line strings ([calculateLength]).

    Modelling choices.
    - JavaScript values are an inductive type [jsval]; objects are
      association lists in insertion order, arrays are lists.
    - A JavaScript [TypeError] is the [Throw] outcome of the monad [result].
    - Numbers are modelled twice. For what does not depend on rounding
      (parsing, validation, counting, where [toFixed] is applied) a
      JavaScript number is [NaN], an infinity, or a real number (module
      [Num]): arithmetic on the finite ones is the exact arithmetic of [R]
      (no rounding, no overflow, a single zero); [Math.sin], [Math.cos],
      [Math.sqrt] and [Math.atan2] are the functions of the Reals library
      with the special cases ECMAScript prescribes for [NaN] and the
      infinities. [toFixed] and [parseFloat] follow ECMAScript on these
      numbers. For what [calculateLength] computes, and in which order it
      adds, module [Double] embeds it on the doubles of IEEE 754 (the
      primitive floats of the Standard Library), with the functions
      ECMAScript leaves to the engine in a record.
    - Strings are [string]s of code units below 256.
    - Two things come from outside and are parameters of the section
      [Viewer]: the exponent notation [toFixed] falls back to from [10^21]
      on, and the XML parser [parseString] of xml2js.

    The file has four parts: the embedding of the code, the properties
    proved of it for every input, closed instances on small inputs, and
    the properties of the length on doubles. *)

From Stdlib Require Import List String Ascii Bool Arith ZArith Lia.
From Stdlib Require Import Reals Lra.
From Stdlib Require Floats.
Import ListNotations.

Set Implicit Arguments.
Set Warnings "-register-all".

(* ================================================================== *)
(** * Outcomes of a JavaScript computation *)

Module Res.

(** The only exception this code can raise by itself. *)
Inductive error : Type :=
| TypeError.

Inductive result (A : Type) : Type :=
| Ok (a : A)
| Throw (e : error).

Arguments Ok {A} a.
Arguments Throw {A} e.

Definition bind {A B} (c : result A) (k : A -> result B) : result B :=
  match c with
  | Ok a => k a
  | Throw e => Throw e
  end.

(** [Array.prototype.map] / [forEach] with a callback that may throw: the
    first exception stops the traversal. *)
Fixpoint mapM {A B} (f : A -> result B) (l : list A) : result (list B) :=
  match l with
  | [] => Ok []
  | x :: l' =>
      bind (f x) (fun y => bind (mapM f l') (fun ys => Ok (y :: ys)))
  end.

Fixpoint foldM {A S} (f : S -> A -> result S) (l : list A) (s : S)
  : result S :=
  match l with
  | [] => Ok s
  | x :: l' => bind (f s x) (fun s' => foldM f l' s')
  end.

End Res.
Export Res.

Notation "x <- c ;; k" := (bind c (fun x => k))
(at level 61, c at next level, right associativity).
Notation "' p <- c ;; k" := (bind c (fun x => match x with p => k end))
(at level 61, p pattern, c at next level, right associativity).

(* ================================================================== *)
(** * Numbers *)

Module Num.

Local Open Scope R_scope.

Inductive number : Type :=
| NaN
| Inf (negative : bool)
| Fin (r : R).

Definition isNaN (x : number) : bool :=
  match x with NaN => true | _ => false end.

Definition isFinite (x : number) : bool :=
  match x with Fin _ => true | _ => false end.

Definition Rneg (r : R) : bool := if Rlt_dec r 0 then true else false.
Definition Rzero (r : R) : bool := if Req_dec_T r 0 then true else false.

Definition neg (x : number) : number :=
  match x with
  | NaN => NaN
  | Inf s => Inf (negb s)
  | Fin r => Fin (- r)
  end.

(** [x + y] *)
Definition add (x y : number) : number :=
  match x, y with
  | NaN, _ | _, NaN => NaN
  | Inf s, Inf t => if Bool.eqb s t then Inf s else NaN
  | Inf s, Fin _ | Fin _, Inf s => Inf s
  | Fin a, Fin b => Fin (a + b)
  end.

(** [x - y] *)
Definition sub (x y : number) : number := add x (neg y).

(** [x * y] *)
Definition mul (x y : number) : number :=
  match x, y with
  | NaN, _ | _, NaN => NaN
  | Inf s, Inf t => Inf (xorb s t)
  | Inf s, Fin b | Fin b, Inf s =>
      if Rzero b then NaN else Inf (xorb s (Rneg b))
  | Fin a, Fin b => Fin (a * b)
  end.

(** [x / y] *)
Definition div (x y : number) : number :=
  match x, y with
  | NaN, _ | _, NaN => NaN
  | Inf _, Inf _ => NaN
  | Inf s, Fin b => Inf (xorb s (Rneg b))
  | Fin _, Inf _ => Fin 0
  | Fin a, Fin b =>
      if Rzero b then (if Rzero a then NaN else Inf (Rneg a))
      else Fin (a / b)
  end.

Definition Math_PI : number := Fin PI.

Definition Math_sin (x : number) : number :=
  match x with Fin r => Fin (sin r) | _ => NaN end.

Definition Math_cos (x : number) : number :=
  match x with Fin r => Fin (cos r) | _ => NaN end.

Definition Math_sqrt (x : number) : number :=
  match x with
  | NaN => NaN
  | Inf s => if s then NaN else Inf false
  | Fin r => if Rneg r then NaN else Fin (sqrt r)
  end.

(** [Math.atan2(y, x)] on two reals: the angle of the point [(x, y)]. *)
Definition Ratan2 (y x : R) : R :=
  if Rlt_dec 0 x then atan (y / x)
  else if Rlt_dec x 0 then
         (if Rneg y then atan (y / x) - PI else atan (y / x) + PI)
       else if Rlt_dec 0 y then PI / 2
            else if Rneg y then - (PI / 2) else 0.

Definition signed (s : bool) (r : R) : R := if s then - r else r.

Definition Math_atan2 (y x : number) : number :=
  match y, x with
  | NaN, _ | _, NaN => NaN
  | Fin a, Fin b => Fin (Ratan2 a b)
  | Fin a, Inf false => Fin 0
  | Fin a, Inf true => Fin (signed (Rneg a) PI)
  | Inf s, Fin _ => Fin (signed s (PI / 2))
  | Inf s, Inf false => Fin (signed s (PI / 4))
  | Inf s, Inf true => Fin (signed s (3 * PI / 4))
  end.

Definition of_Z (z : Z) : number := Fin (IZR z).

End Num.
Export Num.

(* ================================================================== *)
(** * Values *)

Module Val.

Inductive jsval : Type :=
| JUndefined
| JNull
| JBool (b : bool)
| JNum (x : number)
| JStr (s : string)
| JArr (items : list jsval)
| JObj (props : list (string * jsval)).

(** ToBoolean: what [!v], [v && _] and [v || _] look at. *)
Definition truthy (v : jsval) : bool :=
  match v with
  | JUndefined | JNull => false
  | JBool b => b
  | JNum NaN => false
  | JNum (Inf _) => true
  | JNum (Fin r) => negb (Rzero r)
  | JStr s => negb (String.eqb s "")
  | JArr _ | JObj _ => true
  end.

Definition nullish (v : jsval) : bool :=
  match v with JUndefined | JNull => true | _ => false end.

Definition typeof_number (v : jsval) : bool :=
  match v with JNum _ => true | _ => false end.

Definition Array_isArray (v : jsval) : bool :=
  match v with JArr _ => true | _ => false end.

(** Own property of an object; a missing key reads as [undefined]. *)
Fixpoint lookup (props : list (string * jsval)) (k : string) : jsval :=
  match props with
  | [] => JUndefined
  | (k', v) :: rest => if String.eqb k' k then v else lookup rest k
  end.

(** [v.k] for the element names this program reads ([Point], [name],
    [coordinates], ...): none of them is a property of a string, an array,
    a number or a boolean, so those read as [undefined]; reading a property
    of [undefined] or [null] is a TypeError. *)
Definition member (v : jsval) (k : string) : result jsval :=
  match v with
  | JUndefined | JNull => Throw TypeError
  | JObj props => Ok (lookup props k)
  | _ => Ok JUndefined
  end.

Definition char_at (s : string) (i : nat) : jsval :=
  match String.get i s with
  | Some c => JStr (String c EmptyString)
  | None => JUndefined
  end.

(** [v[0]] *)
Definition item0 (v : jsval) : result jsval :=
  match v with
  | JUndefined | JNull => Throw TypeError
  | JArr items => Ok (nth 0 items JUndefined)
  | JStr s => Ok (char_at s 0)
  | JObj props => Ok (lookup props "0")
  | _ => Ok JUndefined
  end.

Definition unwrap (c : result jsval) : jsval :=
  match c with Ok v => v | Throw _ => JUndefined end.

(** [v?.k] and [v?.[0]]: [undefined] when [v] is [undefined] or [null]. *)
Definition opt_member (v : jsval) (k : string) : jsval :=
  if nullish v then JUndefined else unwrap (member v k).

Definition opt_item0 (v : jsval) : jsval :=
  if nullish v then JUndefined else unwrap (item0 v).

(** [a || b] *)
Definition js_or (a b : jsval) : jsval := if truthy a then a else b.

(** Array destructuring [const [x, y] = v]: arrays give their first two
    items, strings their first two characters, anything else is not
    iterable. *)
Definition destructure2 (v : jsval) : result (jsval * jsval) :=
  match v with
  | JArr items => Ok (nth 0 items JUndefined, nth 1 items JUndefined)
  | JStr s => Ok (char_at s 0, char_at s 1)
  | _ => Throw TypeError
  end.

End Val.
Export Val.

(* ================================================================== *)
(** * Strings *)

Module Str.

Local Open Scope string_scope.

(** The class [\s] of regular expressions, which is also what [trim]
    strips: TAB, LF, VT, FF, CR, SPACE and NBSP among the code units
    below 256. *)
Definition is_ws (c : ascii) : bool :=
  let n := nat_of_ascii c in
  ((9 <=? n)%nat && (n <=? 13)%nat) || (n =? 32)%nat || (n =? 160)%nat.

Fixpoint skip_ws (s : string) : string :=
  match s with
  | String c s' => if is_ws c then skip_ws s' else s
  | EmptyString => EmptyString
  end.

(** Drops trailing white space. *)
Fixpoint trim_end (s : string) : string :=
  match s with
  | EmptyString => EmptyString
  | String c s' =>
      match trim_end s' with
      | EmptyString => if is_ws c then EmptyString else String c EmptyString
      | t => String c t
      end
  end.

(** [s.trim()] *)
Definition trim (s : string) : string := trim_end (skip_ws s).

(** [s.split(/\s+/)]: [cur] is the piece being read, [in_ws] tells that
    the previous character belonged to a separator. *)
Fixpoint split_ws_from (in_ws : bool) (cur : string) (s : string)
  : list string :=
  match s with
  | EmptyString => [cur]
  | String c s' =>
      if is_ws c then
        if in_ws then split_ws_from true cur s'
        else cur :: split_ws_from true EmptyString s'
      else split_ws_from false (cur ++ String c EmptyString) s'
  end.

Definition split_ws (s : string) : list string :=
  split_ws_from false EmptyString s.

(** [s.split(",")] *)
Fixpoint split_comma_from (cur : string) (s : string) : list string :=
  match s with
  | EmptyString => [cur]
  | String c s' =>
      if Ascii.eqb c "," then cur :: split_comma_from EmptyString s'
      else split_comma_from (cur ++ String c EmptyString) s'
  end.

Definition split_comma (s : string) : list string :=
  split_comma_from EmptyString s.

Definition is_digit (c : ascii) : bool :=
  let n := nat_of_ascii c in (48 <=? n)%nat && (n <=? 57)%nat.

Definition digit_val (c : ascii) : Z := Z.of_nat (nat_of_ascii c - 48).

Definition digit_char (d : Z) : ascii := ascii_of_nat (48 + Z.to_nat d).

(** The longest run of decimal digits at the head of [s], and the rest. *)
Fixpoint take_digits (s : string) : list ascii * string :=
  match s with
  | String c s' =>
      if is_digit c then
        let (ds, rest) := take_digits s' in (c :: ds, rest)
      else ([], s)
  | EmptyString => ([], EmptyString)
  end.

Definition digits_val (ds : list ascii) : Z :=
  fold_left (fun acc c => 10 * acc + digit_val c)%Z ds 0%Z.

Definition read_sign (s : string) : bool * string :=
  match s with
  | String "-" s' => (true, s')
  | String "+" s' => (false, s')
  | _ => (false, s)
  end.

(** ExponentPart: [e] or [E], an optional sign, at least one digit; when
    the part is absent or incomplete the literal ends before it. *)
Definition read_exponent (s : string) : Z :=
  match s with
  | String c s' =>
      if Ascii.eqb c "e" || Ascii.eqb c "E" then
        let (sg, s'') := read_sign s' in
        match fst (take_digits s'') with
        | [] => 0%Z
        | ds => if sg then (- digits_val ds)%Z else digits_val ds
        end
      else 0%Z
  | EmptyString => 0%Z
  end.

(** The outcome of scanning the longest prefix that is a
    StrDecimalLiteral. *)
Inductive literal : Type :=
| LitNone
| LitInfinity (negative : bool)
| LitDecimal (negative : bool) (mantissa : Z) (exponent : Z).

Definition scan_literal (input : string) : literal :=
  let (sg, s1) := read_sign (skip_ws input) in
  if String.prefix "Infinity" s1 then LitInfinity sg
  else
    let (ip, s2) := take_digits s1 in
    let (fp, s3) :=
      match s2 with
      | String "." s2' => take_digits s2'
      | _ => ([], s2)
      end in
    match (ip ++ fp)%list with
    | [] => LitNone
    | ds =>
        LitDecimal sg (digits_val ds)
          (read_exponent s3 - Z.of_nat (List.length fp))
    end.

Definition literal_value (l : literal) : number :=
  match l with
  | LitNone => NaN
  | LitInfinity sg => Inf sg
  | LitDecimal sg m e => Fin (signed sg (IZR m * powerRZ 10 e))
  end.

(** [parseFloat(s)] on a string. *)
Definition parseFloat_string (s : string) : number :=
  literal_value (scan_literal s).

End Str.
Export Str.

(* ================================================================== *)
(** * Number.prototype.toFixed *)

Module Fixed.

(** Decimal digits of a non-negative integer, most significant first. *)
Fixpoint digits_from (fuel : nat) (n : Z) (acc : list ascii) : list ascii :=
  match fuel with
  | O => acc
  | S fuel' =>
      let acc' := digit_char (n mod 10) :: acc in
      if (n <? 10)%Z then acc' else digits_from fuel' (n / 10) acc'
  end.

Definition decimal_digits (n : Z) : list ascii :=
  digits_from (S (Z.to_nat (Z.log2 n))) n [].

(** Steps 10.a-10.c of [toFixed]: the digits of [n], padded with zeros on
    the left to [f + 1] characters; then the first [k - f] of them, a
    point, and the remaining [f]. *)
Definition fixed_digits (f : nat) (n : Z) : string :=
  let m := decimal_digits n in
  let k := List.length m in
  let m := if (k <=? f)%nat then repeat "0"%char (f + 1 - k) ++ m else m in
  let k := List.length m in
  string_of_list_ascii (firstn (k - f) m ++ "."%char :: skipn (k - f) m).

End Fixed.
Export Fixed.

(* ================================================================== *)
(** * The length of a path on IEEE doubles *)

(** [calculateLength] once more, on the numbers JavaScript computes with:
    binary64 floating-point numbers, with the rounding, the overflow, the
    two zeros and the NaN of IEEE 754 (the primitive floats of the
    Standard Library). What ECMAScript leaves to the engine is a record:
    [Math.sin], [Math.cos], [Math.sqrt] and [Math.atan2] are
    implementation-approximated, and [toFixed] takes the exponent notation
    of [Number::toString] from [10^21] on. *)
Module Double.

Import PrimFloat SpecFloat FloatOps.

Local Open Scope string_scope.
Local Open Scope list_scope.

Inductive jsval : Type :=
| JUndefined
| JNull
| JBool (b : bool)
| JNum (x : float)
| JStr (s : string)
| JArr (items : list jsval)
| JObj (props : list (string * jsval)).

Definition char_at (s : string) (i : nat) : jsval :=
  match String.get i s with
  | Some c => JStr (String c EmptyString)
  | None => JUndefined
  end.

(** Array destructuring [const [x, y] = v]. *)
Definition destructure2 (v : jsval) : result (jsval * jsval) :=
  match v with
  | JArr items => Ok (nth 0 items JUndefined, nth 1 items JUndefined)
  | JStr s => Ok (char_at s 0, char_at s 1)
  | _ => Throw TypeError
  end.

(** The number held by a value whose [typeof] is ["number"]. *)
Definition as_number (v : jsval) : float :=
  match v with JNum x => x | _ => nan end.

Record Engine : Type := mkEngine {
  Math_sin : float -> float;
  Math_cos : float -> float;
  Math_sqrt : float -> float;
  Math_atan2 : float -> float -> float;
  exponential : float -> string
}.

(** [Math.PI]: the double nearest to pi. *)
Definition Math_PI : float := 0x1.921fb54442d18p+1%float.

(** The integer [n] for which [n / 100] is nearest to [m * 2^e], the
    larger one of two (step 8.a of [toFixed]). *)
Definition hundredths (m : positive) (e : Z) : Z :=
  match e with
  | Zneg k => (200 * Zpos m + 2 ^ Zpos k) / 2 ^ (Zpos k + 1)
  | _ => 100 * Zpos m * 2 ^ e
  end.

(** [10^21 <= m * 2^e] *)
Definition huge (m : positive) (e : Z) : bool :=
  match e with
  | Zneg k => (10 ^ 21 * 2 ^ Zpos k <=? Zpos m)%Z
  | _ => (10 ^ 21 <=? Zpos m * 2 ^ e)%Z
  end.

(** lines 31-40 *)
Definition isValidCoordinate (coord : jsval) : bool :=
  match coord with
  | JArr items =>
      (List.length items =? 2)%nat &&
      match nth 0 items JUndefined, nth 1 items JUndefined with
      | JNum c0, JNum c1 => negb (is_nan c0) && negb (is_nan c1)
      | _, _ => false
      end
  | _ => false
  end.

Section Length.

Variable E : Engine.

(** [x.toFixed(2)] *)
Definition toFixed2 (x : float) : string :=
  match Prim2SF x with
  | S754_nan => "NaN"
  | S754_infinity s => if s then "-Infinity" else "Infinity"
  | S754_zero _ => fixed_digits 2 0
  | S754_finite s m e =>
      let sign := if s then "-" else "" in
      if huge m e then sign ++ exponential E (abs x)
      else sign ++ fixed_digits 2 (hundredths m e)
  end.

Local Open Scope float_scope.

(** lines 53-63: the length of one segment. *)
Definition segment (lat1 lon1 lat2 lon2 : float) : float :=
  let R := 6371 in
  let dLat := ((lat2 - lat1) * Math_PI) / 180 in
  let dLon := ((lon2 - lon1) * Math_PI) / 180 in
  let a :=
    Math_sin E (dLat / 2) * Math_sin E (dLat / 2) +
    Math_cos E ((lat1 * Math_PI) / 180) *
      Math_cos E ((lat2 * Math_PI) / 180) *
      Math_sin E (dLon / 2) *
      Math_sin E (dLon / 2) in
  let c := 2 * Math_atan2 E (Math_sqrt E a) (Math_sqrt E (1 - a)) in
  R * c.

(** lines 48-63: the body of the loop at index [i]. *)
Definition loop_body (coords : list jsval) (length : float) (i : nat)
  : result float :=
  '(lat1, lon1) <- destructure2 (nth (i - 1) coords JUndefined) ;;
  '(lat2, lon2) <- destructure2 (nth i coords JUndefined) ;;
  if negb (isValidCoordinate (JArr [lat1; lon1]))
     || negb (isValidCoordinate (JArr [lat2; lon2]))
  then Ok length
  else Ok (length +
           segment (as_number lat1) (as_number lon1)
                   (as_number lat2) (as_number lon2)).

(** lines 46-64: the loop, from [length = 0] to the value it leaves in
    [length]. *)
Definition pathLength (coords : list jsval) : result float :=
  foldM (loop_body coords) (seq 1 (List.length coords - 1)) 0.

(** lines 43-66, on an array [coords] (for which [!coords] is false). *)
Definition calculateLength (coords : list jsval) : result jsval :=
  if (List.length coords <? 2)%nat then Ok (JNum 0)
  else
    length <- pathLength coords ;;
    Ok (JStr (toFixed2 length)).

(** The claims, in their own words. A coordinate is a pair of values. *)
Definition isPair (v : jsval) : Prop := exists a b, v = JArr [a; b].

Definition latOf (coord : jsval) : float :=
  match coord with JArr (a :: _) => as_number a | _ => nan end.
Definition lonOf (coord : jsval) : float :=
  match coord with JArr (_ :: b :: _) => as_number b | _ => nan end.

Definition radians (degrees : float) : float := degrees * Math_PI / 180.

(** The haversine formula of the specification, Earth radius 6371 km,
    each operation rounded as it is made, products from left to right. *)
Definition haversine (lat1 lon1 lat2 lon2 : float) : float :=
  let sLat := Math_sin E (radians (lat2 - lat1) / 2) in
  let sLon := Math_sin E (radians (lon2 - lon1) / 2) in
  let a :=
    sLat * sLat
    + Math_cos E (radians lat1) * Math_cos E (radians lat2) * sLon * sLon in
  let c := 2 * Math_atan2 E (Math_sqrt E a) (Math_sqrt E (1 - a)) in
  6371 * c.

(** The consecutive pairs of a list. *)
Fixpoint consecutive (coords : list jsval) : list (jsval * jsval) :=
  match coords with
  | p :: ((q :: _) as rest) => (p, q) :: consecutive rest
  | _ => []
  end.

Definition bothValid (ends : jsval * jsval) : bool :=
  isValidCoordinate (fst ends) && isValidCoordinate (snd ends).

Definition distance (ends : jsval * jsval) : float :=
  haversine (latOf (fst ends)) (lonOf (fst ends))
            (latOf (snd ends)) (lonOf (snd ends)).

(** The terms of the sum, in order: the distances of the consecutive
    pairs whose two endpoints pass validation; the other pairs add
    nothing. *)
Definition terms (coords : list jsval) : list float :=
  map distance (filter bothValid (consecutive coords)).

(** A pair of endpoints, taken the other way round. *)
Definition backwards (ends : jsval * jsval) : jsval * jsval :=
  (snd ends, fst ends).

(** What one turn of the loop makes of [length]. *)
Definition step (length : float) (ends : jsval * jsval) : float :=
  if bothValid ends then length + distance ends else length.

(** The sum, accumulated from 0 in the order of the terms. *)
Definition total (ts : list float) : float := fold_left add ts 0.

Definition sumOfSegments (coords : list jsval) : float :=
  total (terms coords).

End Length.

(** [Math.sin] is odd: so it is on the engines in use; ECMAScript asks it
    only of [Math.sin(-0)]. *)
Definition oddSine (E : Engine) : Prop :=
  forall x, Math_sin E (- x) = (- Math_sin E x)%float.

(** The sign bit of a double. *)
Definition signbit (x : float) : bool :=
  match Prim2SF x with
  | S754_zero s | S754_infinity s | S754_finite s _ _ => s
  | S754_nan => false
  end.

(** A function given by a table of arguments and values, NaN elsewhere. *)
Definition tabulated (table : list (float * float)) (x : float) : float :=
  match find (fun entry => (fst entry =? x)%float) table with
  | Some entry => snd entry
  | None => nan
  end.

(** An engine to state closed examples with. Its [Math.sin], [Math.cos]
    and [Math.atan2] are tables: at the arguments the examples below give
    rise to they hold the double nearest to the exact value, and NaN
    elsewhere; [Math.sin] is made odd and [Math.cos] even. [Math.sqrt] is
    the square root of IEEE 754. *)

(** The sines of 0, 0.008726646259971648, 0.22427480888127135,
    0.30543261909900765, 0.5009094953223726 and 0.5611233545161769. *)
Definition sin_table : list (float * float) :=
  [(0x0p+0, 0x0p+0);
   (0x1.1df46a2529d39p-7, 0x1.1df37c4954c21p-7);
   (0x1.cb50974bb1957p-3, 0x1.c77955091845bp-3);
   (0x1.38c35418a5bf6p-2, 0x1.33ec389a5a81ep-2);
   (0x1.0077359954b69p-1, 0x1.ebbfb561282d8p-2);
   (0x1.1f4b8f71566c2p-1, 0x1.107457ef3a296p-1)]%float.

(** The cosines of 0 and 0.4485496177625427. *)
Definition cos_table : list (float * float) :=
  [(0x0p+0, 0x1p+0);
   (0x1.cb50974bb1957p-2, 0x1.cd59f7a382ce0p-1)]%float.

(** [Math.atan2(y, x)] for four pairs [(sqrt a, sqrt (1 - a))]: the
    angles 0.008726646259971648, 0.37025907000065617,
    0.5319455459744556 and 0.5611233545161769. *)
Definition atan2_table : list (float * float * float) :=
  [(0x1.1df37c4954c21p-7, 0x1.fffb02599c9cdp-1, 0x1.1df46a2529d39p-7);
   (0x1.728aa15f93f5fp-2, 0x1.dd4db9f7656cdp-1, 0x1.7b253192ccff6p-2);
   (0x1.03b1297c6694ap-1, 0x1.b940b855aec38p-1, 0x1.105b2aa66d223p-1);
   (0x1.107457ef3a296p-1, 0x1.b17d23cbee0a6p-1, 0x1.1f4b8f71566c2p-1)]%float.

Definition sin_sample (x : float) : float :=
  if signbit x then (- tabulated sin_table (- x))%float
  else tabulated sin_table x.

Definition cos_sample (x : float) : float := tabulated cos_table (abs x).

Definition atan2_sample (y x : float) : float :=
  match
    find (fun entry => (fst (fst entry) =? y)%float
                       && (snd (fst entry) =? x)%float) atan2_table
  with
  | Some entry => snd entry
  | None => nan
  end.

Definition engine_sample : Engine :=
  mkEngine sin_sample cos_sample sqrt atan2_sample (fun _ => "1e+21").

(** One degree of longitude on the equator: from (0, 0) to (0, 1). *)
Definition oneDegree : list jsval :=
  [JArr [JNum 0; JNum 0]; JArr [JNum 0; JNum 1]]%float.

(** A track of four points, as the coordinate text
    ["0,0 64.3,0 29.3,25.7 86.7,0"] parses: (0, 0), (0, 64.3),
    (25.7, 29.3) and (0, 86.7). *)
#[warnings="-inexact-float"]
Definition track : list jsval :=
  [JArr [JNum 0; JNum 0]; JArr [JNum 0; JNum 64.3];
   JArr [JNum 25.7; JNum 29.3]; JArr [JNum 0; JNum 86.7]]%float.

Definition trackPoint (i : nat) : jsval := nth i track JUndefined.

(** Its first three points. *)
Definition shortTrack : list jsval := firstn 3 track.

(** A coordinate that fails validation: its latitude is NaN. *)
#[warnings="-inexact-float"]
Definition noLatitude : jsval := JArr [JNum nan; JNum 29.3]%float.

End Double.

(* ================================================================== *)
(** * The viewer *)

(** What the records pushed by [processKMLData] hold: [type], [coords],
    [length] (line geometries only) and [name]. *)
Record Element : Type := mkElement {
  el_type : string;
  el_coords : jsval;
  el_length : option jsval;
  el_name : jsval
}.

(** The object [counts], with its four keys. *)
Record Counts : Type := mkCounts {
  Point : nat;
  LineString : nat;
  Polygon : nat;
  MultiLineString : nat
}.

(** The state of the component ([useState] cells) and the console. *)
Record State : Type := mkState {
  elements : list Element;
  summary : option Counts;
  showSummary : bool;
  showDetailed : bool;
  console : list jsval
}.

(** One rendering of large magnitudes, to state closed examples with; no
    example below formats a magnitude of [10^21] or more. *)
Definition exponential_sample : R -> string := fun _ => "1e+21"%string.

(** What xml2js answers on two small texts (a document with no placemark,
    and anything else taken as malformed), to state closed examples with. *)
Definition parser_sample (text : string) : jsval * jsval :=
  if String.eqb text "<kml><Document/></kml>"
  then (JNull, JObj [("kml"%string, JObj [("Document"%string,
                                           JArr [JStr ""])])])
  else (JStr "Error: Non-whitespace before first tag.", JUndefined).

(** Placemarks as xml2js hands them over, to state closed examples with:
    a Point at [1,2,0]; a placemark with an empty Point and a LineString of
    two points; a MultiGeometry of two short LineStrings. *)
Definition coordinatesNode (text : string) : jsval :=
  JObj [("coordinates"%string, JArr [JStr text])].

Definition pointPlacemark : jsval :=
  JObj [("Point"%string, JArr [coordinatesNode "1,2,0"])].

Definition mixedPlacemark : jsval :=
  JObj [("name"%string, JArr [JStr "both"]);
        ("Point"%string, JArr [JStr ""]);
        ("LineString"%string, JArr [coordinatesNode "0,0 0.00003,0"])].

Definition multiPlacemark : jsval :=
  JObj [("MultiGeometry"%string,
         JArr [JObj [("LineString"%string,
                      JArr [coordinatesNode "0,0 0.00003,0";
                            coordinatesNode "0,0 0.00003,0"])]])].

Definition samplePlacemarks : list jsval :=
  [pointPlacemark; mixedPlacemark; multiPlacemark].

Definition emptyState : State := mkState [] None false false [].

(** A state left by an earlier upload, with the summary on display. *)
Definition loadedState : State :=
  mkState [mkElement "Polygon" (JArr []) None (JStr "Polygon")]
    (Some (mkCounts 0 0 1 0)) true false [].


(** One degree of longitude on the equator: from (0, 0) to (0, 1). *)
Definition oneDegree : list jsval :=
  [JArr [JNum (of_Z 0); JNum (of_Z 0)]; JArr [JNum (of_Z 0); JNum (of_Z 1)]].

Section Viewer.

Local Open Scope string_scope.
Local Open Scope list_scope.

(** [Number::toString] on a finite magnitude of [10^21] or more (the
    exponent notation). ECMAScript defines its digits on doubles only, so it
    stays a parameter. *)
Variable exponential : R -> string.

(** [parseString] of xml2js: the error and the result it hands to its
    callback. *)
Variable parseString : string -> jsval * jsval.

(** [x.toFixed(2)] *)
Definition toFixed2 (x : number) : string :=
  match x with
  | NaN => "NaN"
  | Inf s => if s then "-Infinity" else "Infinity"
  | Fin r =>
      let s := if Rneg r then "-" else "" in
      let a := Rabs r in
      if Rle_dec (10 ^ 21) a then (s ++ exponential a)%string
      else (s ++ fixed_digits 2 (Int_part (a * 100 + / 2)))%string
  end.

(** [parseFloat(v)]: a string is scanned; a number comes back unchanged
    (its string form reads back as itself); [undefined], [null], booleans
    and plain objects have no numeric prefix. Arrays, whose string form is
    not modelled, are never passed by this program. *)
Definition parseFloat (v : jsval) : number :=
  match v with
  | JStr s => parseFloat_string s
  | JNum x => x
  | _ => NaN
  end.

(** The number held by a value whose [typeof] is ["number"]. *)
Definition as_number (v : jsval) : number :=
  match v with JNum x => x | _ => NaN end.

(** lines 31-40 *)
Definition isValidCoordinate (coord : jsval) : bool :=
  match coord with
  | JArr items =>
      (List.length items =? 2)%nat &&
      match nth 0 items JUndefined, nth 1 items JUndefined with
      | JNum c0, JNum c1 => negb (isNaN c0) && negb (isNaN c1)
      | _, _ => false
      end
  | _ => false
  end.

(** lines 53-63: the length of one segment. *)
Definition segment (lat1 lon1 lat2 lon2 : number) : number :=
  let R := of_Z 6371 in
  let dLat := div (mul (sub lat2 lat1) Math_PI) (of_Z 180) in
  let dLon := div (mul (sub lon2 lon1) Math_PI) (of_Z 180) in
  let a :=
    add (mul (Math_sin (div dLat (of_Z 2))) (Math_sin (div dLat (of_Z 2))))
        (mul (mul (mul (Math_cos (div (mul lat1 Math_PI) (of_Z 180)))
                       (Math_cos (div (mul lat2 Math_PI) (of_Z 180))))
                  (Math_sin (div dLon (of_Z 2))))
             (Math_sin (div dLon (of_Z 2)))) in
  let c :=
    mul (of_Z 2) (Math_atan2 (Math_sqrt a) (Math_sqrt (sub (of_Z 1) a))) in
  mul R c.

(** lines 48-63: the body of the loop at index [i]. *)
Definition loop_body (coords : list jsval) (length : number) (i : nat)
  : result number :=
  '(lat1, lon1) <- destructure2 (nth (i - 1) coords JUndefined) ;;
  '(lat2, lon2) <- destructure2 (nth i coords JUndefined) ;;
  if negb (isValidCoordinate (JArr [lat1; lon1]))
     || negb (isValidCoordinate (JArr [lat2; lon2]))
  then Ok length
  else Ok (add length
             (segment (as_number lat1) (as_number lon1)
                      (as_number lat2) (as_number lon2))).

(** lines 46-64: the loop, from [length = 0] to the value it leaves in
    [length]. *)
Definition pathLength (coords : list jsval) : result number :=
  foldM (loop_body coords) (seq 1 (List.length coords - 1)) (of_Z 0).

(** lines 43-66, on an array [coords] (for which [!coords] is false). *)
Definition calculateLength (coords : list jsval) : result jsval :=
  if (List.length coords <? 2)%nat then Ok (JNum (of_Z 0))
  else
    length <- pathLength coords ;;
    Ok (JStr (toFixed2 length)).

(** lines 144-147: the callback of [map]. *)
Definition parseTuple (coord : string) : jsval :=
  let parts := map JStr (split_comma coord) in
  let lng := nth 0 parts JUndefined in
  let lat := nth 1 parts JUndefined in
  if negb (truthy lng) || negb (truthy lat) then JNull
  else
    let parsedCoord := JArr [JNum (parseFloat lat); JNum (parseFloat lng)] in
    if isValidCoordinate parsedCoord then parsedCoord else JNull.

Definition not_null (v : jsval) : bool :=
  match v with JNull => false | _ => true end.

(** lines 141-149 *)
Definition parseCoordinates (coordString : jsval)
  : result (list jsval) :=
  if negb (truthy coordString) then Ok []
  else
    match coordString with
    | JStr s => Ok (filter not_null (map parseTuple (split_ws (trim s))))
    | _ => Throw TypeError
    end.

(** [placemark.name?.[0] || label] *)
Definition nameOr (placemark : jsval) (label : string) : jsval :=
  js_or (opt_item0 (unwrap (member placemark "name"))) (JStr label).

Definition bump_Point (c : Counts) : Counts :=
  mkCounts (Point c + 1) (LineString c) (Polygon c) (MultiLineString c).
Definition bump_LineString (c : Counts) : Counts :=
  mkCounts (Point c) (LineString c + 1) (Polygon c) (MultiLineString c).
Definition bump_Polygon (c : Counts) : Counts :=
  mkCounts (Point c) (LineString c) (Polygon c + 1) (MultiLineString c).
Definition bump_MultiLineString (c : Counts) : Counts :=
  mkCounts (Point c) (LineString c) (Polygon c) (MultiLineString c + 1).

(** The two variables the callback of [forEach] updates. *)
Definition Acc : Type := (Counts * list Element)%type.

(** lines 98-104 *)
Definition visitPoint (placemark : jsval) (acc : Acc) : result Acc :=
  let '(counts, parsedElements) := acc in
  tag <- member placemark "Point" ;;
  if truthy tag then
    let counts := bump_Point counts in
    first <- item0 tag ;;
    coords <- parseCoordinates (opt_item0 (opt_member first "coordinates")) ;;
    if (0 <? List.length coords)%nat then
      Ok (counts,
          parsedElements ++
            [mkElement "Point" (JArr coords) None (nameOr placemark "Point")])
    else Ok (counts, parsedElements)
  else Ok (counts, parsedElements).

(** lines 106-112 *)
Definition visitLineString (placemark : jsval) (acc : Acc) : result Acc :=
  let '(counts, parsedElements) := acc in
  tag <- member placemark "LineString" ;;
  if truthy tag then
    let counts := bump_LineString counts in
    first <- item0 tag ;;
    coords <- parseCoordinates (opt_item0 (opt_member first "coordinates")) ;;
    if (1 <? List.length coords)%nat then
      length <- calculateLength coords ;;
      Ok (counts,
          parsedElements ++
            [mkElement "LineString" (JArr coords) (Some length)
               (nameOr placemark "LineString")])
    else Ok (counts, parsedElements)
  else Ok (counts, parsedElements).

(** lines 114-120 *)
Definition visitPolygon (placemark : jsval) (acc : Acc) : result Acc :=
  let '(counts, parsedElements) := acc in
  tag <- member placemark "Polygon" ;;
  if truthy tag then
    let counts := bump_Polygon counts in
    first <- item0 tag ;;
    coords <-
      parseCoordinates
        (opt_item0
           (opt_member
              (opt_item0
                 (opt_member
                    (opt_item0 (opt_member first "outerBoundaryIs"))
                    "LinearRing"))
              "coordinates")) ;;
    if (2 <? List.length coords)%nat then
      Ok (counts,
          parsedElements ++
            [mkElement "Polygon" (JArr coords) None
               (nameOr placemark "Polygon")])
    else Ok (counts, parsedElements)
  else Ok (counts, parsedElements).

(** [placemark.MultiGeometry && placemark.MultiGeometry[0]?.LineString] *)
Definition multiTag (placemark : jsval) : result jsval :=
  mg <- member placemark "MultiGeometry" ;;
  if truthy mg then
    first <- item0 mg ;;
    Ok (opt_member first "LineString")
  else Ok mg.

(** [lines.map(f)]: only an array has the method. *)
Definition array_map {B} (f : jsval -> result B) (lines : jsval)
  : result (list B) :=
  match lines with
  | JArr items => mapM f items
  | _ => Throw TypeError
  end.

(** line 129: the callback of [reduce]. *)
Definition addLength (acc : number) (coords : list jsval) : result number :=
  length <- calculateLength coords ;;
  Ok (add acc (parseFloat length)).

(** line 129: [multiCoords.reduce(..., 0)]. *)
Definition totalLength (multiCoords : list (list jsval)) : result number :=
  foldM addLength multiCoords (of_Z 0).

(** lines 122-132 *)
Definition visitMulti (placemark : jsval) (acc : Acc) : result Acc :=
  let '(counts, parsedElements) := acc in
  tag <- multiTag placemark ;;
  if truthy tag then
    let counts := bump_MultiLineString counts in
    parsed <-
      array_map
        (fun line =>
           parseCoordinates (opt_item0 (opt_member line "coordinates")))
        tag ;;
    let multiCoords :=
      filter (fun coords => (1 <? List.length coords)%nat) parsed in
    if (0 <? List.length multiCoords)%nat then
      total <- totalLength multiCoords ;;
      Ok (counts,
          parsedElements ++
            [mkElement "MultiLineString" (JArr (map JArr multiCoords))
               (Some (JStr (toFixed2 total)))
               (nameOr placemark "MultiLineString")])
    else Ok (counts, parsedElements)
  else Ok (counts, parsedElements).

(** lines 97-133: the callback of [forEach]. *)
Definition visit (acc : Acc) (placemark : jsval) : result Acc :=
  acc <- visitPoint placemark acc ;;
  acc <- visitLineString placemark acc ;;
  acc <- visitPolygon placemark acc ;;
  visitMulti placemark acc.

Definition noCounts : Counts := mkCounts 0 0 0 0.

(** lines 93-139 *)
Definition processKMLData (placemarks : list jsval) (st : State)
  : result State :=
  '(counts, parsedElements) <- foldM visit placemarks (noCounts, []) ;;
  Ok (mkState parsedElements (Some counts) false false (console st)).

(** line 86: [result?.kml?.Document?.[0]?.Placemark] *)
Definition placemarkPath (result : jsval) : jsval :=
  opt_member
    (opt_item0 (opt_member (opt_member result "kml") "Document"))
    "Placemark".

(** line 86: [... || []] *)
Definition placemarksOf (result : jsval) : jsval :=
  js_or (placemarkPath result) (JArr []).

(** lines 81-88: the callback handed to [parseString]. [forEach] exists on
    arrays only. *)
Definition onParsed (err result : jsval) (st : State) : Res.result State :=
  if truthy err then
    Ok (mkState (elements st) (summary st) (showSummary st)
          (showDetailed st) (console st ++ [err]))
  else
    match placemarksOf result with
    | JArr placemarks => processKMLData placemarks st
    | _ => Throw TypeError
    end.

(** lines 79-89: [reader.onload], on the text read from the file. *)
Definition reader_onload (text : string) (st : State) : Res.result State :=
  let (err, result) := parseString text in
  onParsed err result st.

(** lines 74-91: nothing happens when no file was chosen; otherwise the
    reader hands the text of the file to [reader.onload]. *)
Definition handleFileUpload (file : option string) (st : State)
  : Res.result State :=
  match file with
  | None => Ok st
  | Some text => reader_onload text st
  end.

(** line 169: [Object.entries(summary)]. *)
Definition Object_entries (c : Counts) : list (string * nat) :=
  [("Point", Point c); ("LineString", LineString c);
   ("Polygon", Polygon c); ("MultiLineString", MultiLineString c)].

(* ------------------------------------------------------------------ *)
(** ** What the specification says, in its own words *)

(** The two fields of a tuple: longitude first, latitude second. *)
Definition lngField (tuple : string) : jsval :=
  nth 0 (map JStr (split_comma tuple)) JUndefined.
Definition latField (tuple : string) : jsval :=
  nth 1 (map JStr (split_comma tuple)) JUndefined.

(** "a tuple is accepted iff both fields parse as finite numbers" *)
Definition bothFinite (tuple : string) : bool :=
  isFinite (parseFloat (lngField tuple))
  && isFinite (parseFloat (latField tuple)).

(** The same with "a number other than NaN" for "a finite number". *)
Definition bothNumbers (tuple : string) : bool :=
  negb (isNaN (parseFloat (lngField tuple)))
  && negb (isNaN (parseFloat (latField tuple))).

(** The accepted tuple, fields swapped to (latitude, longitude). *)
Definition swapped (tuple : string) : jsval :=
  JArr [JNum (parseFloat (latField tuple));
        JNum (parseFloat (lngField tuple))].

Definition accepted (tuple : string) : bool := not_null (parseTuple tuple).

(** A coordinate: a pair of values. *)
Definition isPair (v : jsval) : Prop := exists a b, v = JArr [a; b].

Definition latOf (coord : jsval) : number :=
  match coord with JArr (a :: _) => as_number a | _ => NaN end.
Definition lonOf (coord : jsval) : number :=
  match coord with JArr (_ :: b :: _) => as_number b | _ => NaN end.

Definition radians (degrees : number) : number :=
  div (mul degrees Math_PI) (of_Z 180).

Definition squared (x : number) : number := mul x x.

(** The haversine distance of the specification, Earth radius 6371 km. *)
Definition haversine (lat1 lon1 lat2 lon2 : number) : number :=
  let dLat := sub (radians lat2) (radians lat1) in
  let dLon := sub (radians lon2) (radians lon1) in
  let a :=
    add (squared (Math_sin (div dLat (of_Z 2))))
        (mul (mul (Math_cos (radians lat1)) (Math_cos (radians lat2)))
             (squared (Math_sin (div dLon (of_Z 2))))) in
  let c :=
    mul (of_Z 2) (Math_atan2 (Math_sqrt a) (Math_sqrt (sub (of_Z 1) a))) in
  mul (of_Z 6371) c.

(** What a consecutive pair contributes. *)
Definition contribution (p q : jsval) : number :=
  if isValidCoordinate p && isValidCoordinate q
  then haversine (latOf p) (lonOf p) (latOf q) (lonOf q)
  else of_Z 0.

(** The sum over the consecutive pairs. *)
Fixpoint sumOfSegments (coords : list jsval) : number :=
  match coords with
  | p :: ((q :: _) as rest) => add (contribution p q) (sumOfSegments rest)
  | _ => of_Z 0
  end.

(** A tag is present on a placemark when its property is truthy. *)
Definition tagOf (k : string) (placemark : jsval) : jsval :=
  unwrap (member placemark k).
Definition hasTag (k : string) (placemark : jsval) : bool :=
  truthy (tagOf k placemark).
Definition hasMultiTag (placemark : jsval) : bool :=
  truthy (unwrap (multiTag placemark)).

(** The coordinates parsed for each kind of geometry of a placemark. *)
Definition parsedAt (coordString : jsval) : list jsval :=
  match parseCoordinates coordString with
  | Ok coords => coords
  | Throw _ => []
  end.

(** Where the coordinate string of each kind of geometry is read. *)
Definition pointPath (placemark : jsval) : jsval :=
  opt_item0
    (opt_member (unwrap (item0 (tagOf "Point" placemark))) "coordinates").

Definition linePath (placemark : jsval) : jsval :=
  opt_item0
    (opt_member (unwrap (item0 (tagOf "LineString" placemark)))
       "coordinates").

Definition ringPath (placemark : jsval) : jsval :=
  opt_item0
    (opt_member
       (opt_item0
          (opt_member
             (opt_item0
                (opt_member (unwrap (item0 (tagOf "Polygon" placemark)))
                   "outerBoundaryIs"))
             "LinearRing"))
       "coordinates").

Definition subLinePath (line : jsval) : jsval :=
  opt_item0 (opt_member line "coordinates").

Definition pointCoords (placemark : jsval) : list jsval :=
  parsedAt (pointPath placemark).

Definition lineCoords (placemark : jsval) : list jsval :=
  parsedAt (linePath placemark).

Definition ringCoords (placemark : jsval) : list jsval :=
  parsedAt (ringPath placemark).

(** The sub-lines of two points or more. *)
Definition subLines (placemark : jsval) : list (list jsval) :=
  match
    array_map (fun line => parseCoordinates (subLinePath line))
      (unwrap (multiTag placemark))
  with
  | Ok parsed => filter (fun coords => (1 <? List.length coords)%nat) parsed
  | Throw _ => []
  end.

Definition countIf {A} (f : A -> bool) (l : list A) : nat :=
  List.length (filter f l).

Definition ofType (k : string) (e : Element) : bool :=
  String.eqb (el_type e) k.

(** Does the placemark yield a record of each kind? *)
Definition yieldsPoint (placemark : jsval) : bool :=
  hasTag "Point" placemark
  && (1 <=? List.length (pointCoords placemark))%nat.
Definition yieldsLineString (placemark : jsval) : bool :=
  hasTag "LineString" placemark
  && (2 <=? List.length (lineCoords placemark))%nat.
Definition yieldsPolygon (placemark : jsval) : bool :=
  hasTag "Polygon" placemark
  && (3 <=? List.length (ringCoords placemark))%nat.
Definition yieldsMultiLineString (placemark : jsval) : bool :=
  hasMultiTag placemark
  && (1 <=? List.length (subLines placemark))%nat.

(** The MultiGeometry tag in the words of the claim, without the code's
    expression of line 122: the tag is present when the placemark has a
    MultiGeometry whose first entry has LineStrings. *)
Definition lineStringsOf (placemark : jsval) : jsval :=
  opt_member (unwrap (item0 (tagOf "MultiGeometry" placemark))) "LineString".

Definition carriesMulti (placemark : jsval) : bool :=
  hasTag "MultiGeometry" placemark && truthy (lineStringsOf placemark).

(** Its sub-lines of two points or more. *)
Definition longSubLines (placemark : jsval) : list (list jsval) :=
  match lineStringsOf placemark with
  | JArr lines =>
      filter (fun coords => (2 <=? List.length coords)%nat)
        (map (fun line => parsedAt (subLinePath line)) lines)
  | _ => []
  end.

Definition yieldsMulti (placemark : jsval) : bool :=
  carriesMulti placemark
  && (1 <=? List.length (longSubLines placemark))%nat.

(** The tags seen and the records produced, kind by kind, between two
    values of the pair ([counts], [parsedElements]). *)
Definition tally (placemarks : list jsval) (before after : Acc) : Prop :=
  (Point (fst after)
   = Point (fst before) + countIf (hasTag "Point") placemarks
   /\ LineString (fst after)
     = LineString (fst before) + countIf (hasTag "LineString") placemarks
   /\ Polygon (fst after)
     = Polygon (fst before) + countIf (hasTag "Polygon") placemarks
   /\ MultiLineString (fst after)
     = MultiLineString (fst before) + countIf hasMultiTag placemarks)
  /\ (countIf (ofType "Point") (snd after)
      = countIf (ofType "Point") (snd before)
        + countIf yieldsPoint placemarks
      /\ countIf (ofType "LineString") (snd after)
        = countIf (ofType "LineString") (snd before)
          + countIf yieldsLineString placemarks
      /\ countIf (ofType "Polygon") (snd after)
        = countIf (ofType "Polygon") (snd before)
          + countIf yieldsPolygon placemarks
      /\ countIf (ofType "MultiLineString") (snd after)
        = countIf (ofType "MultiLineString") (snd before)
          + countIf yieldsMultiLineString placemarks).

(** What [loop_body] reads of an endpoint: whether it can be destructured,
    and its first two items. *)
Definition iterable (v : jsval) : bool :=
  match destructure2 v with Ok _ => true | Throw _ => false end.

Definition firstTwo (v : jsval) : jsval * jsval :=
  match destructure2 v with
  | Ok items => items
  | Throw _ => (JUndefined, JUndefined)
  end.

Definition endsValid (v : jsval) : bool :=
  isValidCoordinate (JArr [fst (firstTwo v); snd (firstTwo v)]).

(** What one turn of the loop adds to [length]. *)
Definition stepLength (p q : jsval) : number :=
  if endsValid p && endsValid q
  then segment (as_number (fst (firstTwo p))) (as_number (snd (firstTwo p)))
               (as_number (fst (firstTwo q))) (as_number (snd (firstTwo q)))
  else of_Z 0.

(** The loop seen as a walk along the list, pair after pair. *)
Fixpoint walk (length : number) (coords : list jsval) : number :=
  match coords with
  | p :: ((q :: _) as rest) => walk (add length (stepLength p q)) rest
  | _ => length
  end.

Fixpoint stepSum (coords : list jsval) : number :=
  match coords with
  | p :: ((q :: _) as rest) => add (stepLength p q) (stepSum rest)
  | _ => of_Z 0
  end.



(** Rounding to two decimals, halves away from zero: what [toFixed(2)]
    prints, as a number. *)
Definition hundredths (r : R) : Z := Int_part (Rabs r * 100 + / 2).







(** A number that is not infinite. *)
Definition plain (x : number) : Prop := x = NaN \/ exists r, x = Fin r.

(** What one branch of the callback does to the two variables: the count
    of its kind goes up when [present], and one record of type [k] is
    pushed when moreover [enough]. *)
Definition branchEffect (k : string) (bump : Counts -> Counts)
  (present enough : bool) (before after : Acc) : Prop :=
  fst after = (if present then bump (fst before) else fst before)
  /\ exists new,
       snd after = snd before ++ new
       /\ Forall (fun e => el_type e = k) new
       /\ List.length new = (if present && enough then 1 else 0)%nat.

(** A coordinate string [parseCoordinates] can read: absent, empty, or a
    string. *)
Definition readable (v : jsval) : Prop :=
  truthy v = false \/ exists s, v = JStr s.

(** A placemark as xml2js builds it from elements without attributes: an
    object whose coordinate strings are readable and whose MultiGeometry,
    when it has LineStrings, holds them in an array. *)
Definition wellFormed (placemark : jsval) : Prop :=
  nullish placemark = false
  /\ readable (pointPath placemark)
  /\ readable (linePath placemark)
  /\ readable (ringPath placemark)
  /\ (hasMultiTag placemark = true ->
      exists lines,
        unwrap (multiTag placemark) = JArr lines
        /\ Forall (fun line => readable (subLinePath line)) lines).

(* ------------------------------------------------------------------ *)
(** ** The view, the buttons and the events *)

(** What the map draws for a record (lines 186-197): the component, its
    [key], its [position] or [positions], its colour, and the pieces its
    popup text is made of, in order. *)
Inductive Overlay : Type :=
| MarkerOverlay (key : nat) (position : jsval) (popup : list jsval)
| PolylineOverlay (key : nat) (positions : jsval) (color : string)
    (popup : list jsval)
| PolygonOverlay (key : nat) (positions : jsval) (color : string)
    (popup : list jsval).

(** [el.length]: [undefined] on the records that have no such field. *)
Definition lengthOf (el : Element) : jsval :=
  match el_length el with Some v => v | None => JUndefined end.

(** [v.every(f)]: only an array has the method. *)
Definition array_every (f : jsval -> bool) (v : jsval) : result bool :=
  match v with
  | JArr items => Ok (forallb f items)
  | _ => Throw TypeError
  end.

(** lines 186-197: the callback of [elements.map]; [None] is [null]. *)
Definition renderElement (index : nat) (el : Element)
  : result (option Overlay) :=
  if String.eqb (el_type el) "Point" && isValidCoordinate (el_coords el)
  then Ok (Some (MarkerOverlay index (el_coords el) [el_name el]))
  else
    isLine <- (if String.eqb (el_type el) "LineString"
               then array_every isValidCoordinate (el_coords el)
               else Ok false) ;;
    if isLine
    then Ok (Some (PolylineOverlay index (el_coords el) "blue"
                     [el_name el; JStr ": Length "; lengthOf el;
                      JStr " km"]))
    else
      isPolygon <- (if String.eqb (el_type el) "Polygon"
                    then array_every isValidCoordinate (el_coords el)
                    else Ok false) ;;
      if isPolygon
      then Ok (Some (PolygonOverlay index (el_coords el) "green"
                       [el_name el]))
      else Ok None.

(** [elements.map((el, index) => ...)] *)
Definition renderElements (els : list Element)
  : result (list (option Overlay)) :=
  mapM (fun entry => renderElement (fst entry) (snd entry))
       (combine (seq 0 (List.length els)) els).

(** lines 182-199: the map, when it is displayed. *)
Definition renderMap (st : State) : result (option (list (option Overlay))) :=
  if showDetailed st && (0 <? List.length (elements st))%nat then
    overlays <- renderElements (elements st) ;;
    Ok (Some overlays)
  else Ok None.

(** lines 169-176: the rows of the table; [None] is the [false] that
    React does not draw. *)
Definition renderRows (c : Counts) : list (option (string * nat)) :=
  map (fun entry => if (0 <? snd entry)%nat then Some entry else None)
      (Object_entries c).

(** lines 158-180: the table, when it is displayed. *)
Definition renderTable (st : State) : option (list (option (string * nat))) :=
  if showSummary st then
    match summary st with
    | Some c => Some (renderRows c)
    | None => None
    end
  else None.

(** lines 151-201: what the component returns. *)
Record View : Type := mkView {
  tableView : option (list (option (string * nat)));
  mapView : option (list (option Overlay))
}.

Definition render (st : State) : result View :=
  overlays <- renderMap st ;;
  Ok (mkView (renderTable st) overlays).

(** lines 155 and 156: the two buttons. *)
Definition clickSummary (st : State) : State :=
  mkState (elements st) (summary st) true false (console st).

Definition clickDetailed (st : State) : State :=
  mkState (elements st) (summary st) false true (console st).

(** What the user can do, and the states the component can be in from its
    first render (lines 69-72) on. *)
Inductive Event : Type :=
| Upload (file : option string)
| ClickSummary
| ClickDetailed.

Definition handle (st : State) (ev : Event) : Res.result State :=
  match ev with
  | Upload file => handleFileUpload file st
  | ClickSummary => Ok (clickSummary st)
  | ClickDetailed => Ok (clickDetailed st)
  end.

Inductive reachable : State -> Prop :=
| reach_first : reachable emptyState
| reach_next st ev st' :
    reachable st -> handle st ev = Ok st' -> reachable st'.

(** The shape of the records, kind by kind. *)
Definition validCoords (coords : list jsval) : Prop :=
  Forall (fun c => isValidCoordinate c = true) coords.

Definition recordShape (e : Element) : Prop :=
  truthy (el_name e) = true
  /\ ((el_type e = "Point" /\ el_length e = None
       /\ exists coords,
            el_coords e = JArr coords /\ validCoords coords
            /\ (1 <= List.length coords)%nat)
      \/ (el_type e = "LineString" /\ (exists s, el_length e = Some (JStr s))
          /\ exists coords,
               el_coords e = JArr coords /\ validCoords coords
               /\ (2 <= List.length coords)%nat)
      \/ (el_type e = "Polygon" /\ el_length e = None
          /\ exists coords,
               el_coords e = JArr coords /\ validCoords coords
               /\ (3 <= List.length coords)%nat)
      \/ (el_type e = "MultiLineString"
          /\ (exists s, el_length e = Some (JStr s))
          /\ exists multiCoords,
               el_coords e = JArr (map JArr multiCoords)
               /\ multiCoords <> []
               /\ Forall (fun coords =>
                            validCoords coords
                            /\ (2 <= List.length coords)%nat) multiCoords)).

(** Adding the counts of two passes. *)
Definition plusCounts (c d : Counts) : Counts :=
  mkCounts (Point c + Point d) (LineString c + LineString d)
    (Polygon c + Polygon d) (MultiLineString c + MultiLineString d).

(** A branch run on other values of the two variables. *)
Definition shifted (acc : Acc) (r : Res.result Acc) : Res.result Acc :=
  match r with
  | Ok (counts, new) => Ok (plusCounts (fst acc) counts, snd acc ++ new)
  | Throw e => Throw e
  end.

(** The maximal runs of characters other than white space. *)
Fixpoint words_from (cur : string) (s : string) : list string :=
  match s with
  | EmptyString => if String.eqb cur "" then [] else [cur]
  | String c s' =>
      if is_ws c then
        if String.eqb cur "" then words_from "" s'
        else cur :: words_from "" s'
      else words_from (cur ++ String c EmptyString)%string s'
  end.

Definition words (s : string) : list string := words_from "" s.

Definition nonempty (s : string) : bool := negb (String.eqb s "").

Fixpoint comma_free (s : string) : bool :=
  match s with
  | EmptyString => true
  | String c s' => negb (Ascii.eqb c ",") && comma_free s'
  end.

(** A coordinate with an infinite component. *)
Definition hasInfinite (coord : jsval) : bool :=
  match latOf coord, lonOf coord with
  | Inf _, _ | _, Inf _ => true
  | _, _ => false
  end.

(** What a branch pushes: nothing, or records of the right shape. *)
Definition pushes (before after : Acc) : Prop :=
  exists new, snd after = snd before ++ new /\ Forall recordShape new.

(** A step that only adds to the two variables: its effect on any values
    of them is its effect on the initial ones, shifted. *)
Definition shiftable (f : Acc -> Res.result Acc) : Prop :=
  forall acc, f acc = shifted acc (f (noCounts, [])).

(** What the map shows of a record of the shape [processKMLData] makes:
    a line for a LineString, a surface for a Polygon, nothing otherwise. *)
Definition overlayOf (index : nat) (e : Element) : option Overlay :=
  if String.eqb (el_type e) "LineString" then
    Some (PolylineOverlay index (el_coords e) "blue"
            [el_name e; JStr ": Length "; lengthOf e; JStr " km"])
  else if String.eqb (el_type e) "Polygon" then
    Some (PolygonOverlay index (el_coords e) "green" [el_name e])
  else None.

Definition overlaysFrom (start : nat) (els : list Element)
  : list (option Overlay) :=
  map (fun entry => overlayOf (fst entry) (snd entry))
      (combine (seq start (List.length els)) els).

Definition overlaysOf (els : list Element) : list (option Overlay) :=
  overlaysFrom 0 els.

(** What holds of every state the component goes through. *)
Definition consistent (st : State) : Prop :=
  Forall recordShape (elements st)
  /\ (showSummary st = false \/ showDetailed st = false)
  /\ (summary st = None -> elements st = []).

(** The row of the table for a kind of which [n] tags were met. *)
Definition rowOf (kind : string) (n : nat) : option (string * nat) :=
  match n with
  | O => None
  | S _ => Some (kind, n)
  end.

(** A parser that answers every text with a document holding the three
    sample placemarks, to state closed examples with. *)
Definition parser_track (text : string) : jsval * jsval :=
  (JNull,
   JObj [("kml"%string,
          JObj [("Document"%string,
                 JArr [JObj [("Placemark"%string,
                              JArr samplePlacemarks)]])])]).

(* ------------------------------------------------------------------ *)
(** ** Coordinate parsing *)

Lemma field_shape (parts : list string) (i : nat) :
  nth i (map JStr parts) JUndefined = JUndefined
  \/ exists x, nth i (map JStr parts) JUndefined = JStr x.
Proof.
  revert i; induction parts as [|p parts IH]; intros [|i]; simpl; auto.
  right; now exists p.
Qed.

Lemma falsy_field_is_NaN (parts : list string) (i : nat) :
  truthy (nth i (map JStr parts) JUndefined) = false ->
  parseFloat (nth i (map JStr parts) JUndefined) = NaN.
Proof.
  destruct (field_shape parts i) as [-> | [x ->]]; [reflexivity|].
  simpl. destruct (String.eqb_spec x ""); [subst; reflexivity | discriminate].
Qed.

(** The callback of [map] keeps a tuple exactly when both fields read as
    numbers, and then swaps them. *)
Lemma parseTuple_spec (tuple : string) :
  parseTuple tuple = if bothNumbers tuple then swapped tuple else JNull.
Proof.
  unfold parseTuple, bothNumbers, swapped, lngField, latField.
  set (parts := map JStr (split_comma tuple)).
  destruct (truthy (nth 0 parts JUndefined)) eqn:T0; simpl.
  - destruct (truthy (nth 1 parts JUndefined)) eqn:T1; simpl.
    + destruct (isNaN (parseFloat (nth 0 parts JUndefined)));
        destruct (isNaN (parseFloat (nth 1 parts JUndefined))); reflexivity.
    + unfold parts in *. rewrite (falsy_field_is_NaN _ _ T1).
      simpl. now rewrite andb_false_r.
  - unfold parts in *. now rewrite (falsy_field_is_NaN _ _ T0).
Qed.

Lemma kept_tuples (tuples : list string) :
  filter not_null (map parseTuple tuples)
  = map swapped (filter bothNumbers tuples).
Proof.
  induction tuples as [|t ts IH]; simpl; [reflexivity|].
  rewrite parseTuple_spec.
  destruct (bothNumbers t); simpl; now rewrite IH.
Qed.

Lemma swapped_valid (tuple : string) :
  bothNumbers tuple = true -> isValidCoordinate (swapped tuple) = true.
Proof.
  unfold bothNumbers, swapped. simpl.
  intros H. apply andb_prop in H as [H0 H1]. now rewrite H0, H1.
Qed.

(** [parseCoordinates] never throws on a string. *)
Lemma parseCoordinates_string (s : string) :
  parseCoordinates (JStr s)
  = Ok (map swapped (filter bothNumbers (split_ws (trim s)))).
Proof.
  unfold parseCoordinates. simpl.
  destruct (String.eqb_spec s ""); simpl.
  - subst. reflexivity.
  - now rewrite kept_tuples.
Qed.

(** C2 (as amended). For every coordinate string, the tuples (the pieces
    between runs of white space) that [parseCoordinates] returns are exactly
    those whose longitude and latitude fields both read, by [parseFloat], as
    a number other than NaN -- an infinite value is accepted --; they come in
    their input order, each swapped to (latitude, longitude); the other
    tuples do not appear. *)
Theorem parseCoordinates_accepts_numbers (s : string) :
  parseCoordinates (JStr s)
  = Ok (map swapped (filter bothNumbers (split_ws (trim s))))
  /\ (forall tuple, accepted tuple = bothNumbers tuple).
Proof.
  split; [apply parseCoordinates_string|].
  intros tuple. unfold accepted. rewrite parseTuple_spec.
  destruct (bothNumbers tuple); reflexivity.
Qed.

(** C9. For every input string, [parseCoordinates] returns a list whose
    every element satisfies [isValidCoordinate]: a pair of two numbers,
    neither of them NaN. *)
Theorem parseCoordinates_all_valid (s : string) :
  exists coords,
    parseCoordinates (JStr s) = Ok coords
    /\ Forall (fun c =>
                 isValidCoordinate c = true
                 /\ exists lat lng,
                      c = JArr [JNum lat; JNum lng]
                      /\ isNaN lat = false /\ isNaN lng = false) coords.
Proof.
  eexists; split; [apply parseCoordinates_string|].
  apply Forall_forall. intros c Hc.
  apply in_map_iff in Hc as [t [<- Ht]].
  apply filter_In in Ht as [_ Ht].
  split; [now apply swapped_valid|].
  exists (parseFloat (latField t)), (parseFloat (lngField t)).
  unfold bothNumbers in Ht. apply andb_prop in Ht as [H0 H1].
  repeat split; [now destruct (isNaN (parseFloat (latField t)))
                | now destruct (isNaN (parseFloat (lngField t)))].
Qed.

(* ------------------------------------------------------------------ *)
(** ** Degenerate paths *)

(** C6 (as amended). For the empty list and for every single-coordinate
    list, [calculateLength] returns the number 0 itself, not a formatted
    string. *)
Theorem calculateLength_degenerate (coords : list jsval) :
  (List.length coords < 2)%nat ->
  calculateLength coords = Ok (JNum (of_Z 0)).
Proof.
  intros H. unfold calculateLength.
  destruct (Nat.ltb_spec (List.length coords) 2); [reflexivity | lia].
Qed.

(* ------------------------------------------------------------------ *)
(** ** Upload *)

(** C4. When the text of the uploaded file fails to parse as XML
    ([parseString] hands an error to its callback), the upload logs that
    error and returns without throwing; [elements], [summary] and the two
    display flags keep the values they had. *)
Theorem handleFileUpload_parse_failure (text : string) (st : State) :
  truthy (fst (parseString text)) = true ->
  handleFileUpload (Some text) st
  = Ok (mkState (elements st) (summary st) (showSummary st)
          (showDetailed st) (console st ++ [fst (parseString text)])).
Proof.
  intros H. unfold handleFileUpload, reader_onload.
  destruct (parseString text) as [err result].
  simpl in *. unfold onParsed. now rewrite H.
Qed.

(** C8. When the text parses and the path [kml.Document[0].Placemark] is
    absent from the result, the upload completes without error: the
    placemark list is empty, there is no record, and the four counts of the
    summary are zero. *)
Theorem handleFileUpload_no_placemark (text : string) (st : State) :
  truthy (fst (parseString text)) = false ->
  placemarkPath (snd (parseString text)) = JUndefined ->
  placemarksOf (snd (parseString text)) = JArr []
  /\ handleFileUpload (Some text) st
     = Ok (mkState [] (Some (mkCounts 0 0 0 0)) false false (console st)).
Proof.
  intros He Hp. unfold placemarksOf. rewrite Hp. split; [reflexivity|].
  unfold handleFileUpload, reader_onload.
  destruct (parseString text) as [err result].
  simpl in *. unfold onParsed, placemarksOf. rewrite He, Hp. reflexivity.
Qed.

(* ------------------------------------------------------------------ *)
(** ** Counting and gating in [processKMLData] *)

Lemma countIf_app {A} (f : A -> bool) (l1 l2 : list A) :
  countIf f (l1 ++ l2) = countIf f l1 + countIf f l2.
Proof. unfold countIf. now rewrite filter_app, length_app. Qed.

Lemma countIf_cons {A} (f : A -> bool) (x : A) (l : list A) :
  countIf f (x :: l) = (if f x then 1 else 0) + countIf f l.
Proof. unfold countIf. simpl. now destruct (f x). Qed.

Ltac branch_done :=
  split; [reflexivity|];
  first
    [ exists []; simpl; rewrite ?app_nil_r;
      repeat split; [constructor]
    | eexists [_]; simpl;
      repeat split; repeat constructor ].

Lemma visitPoint_effect placemark before after :
  visitPoint placemark before = Ok after ->
  branchEffect "Point" bump_Point (hasTag "Point" placemark)
    (0 <? List.length (pointCoords placemark))%nat before after.
Proof.
  destruct before as [counts els].
  unfold visitPoint, branchEffect, hasTag, pointCoords, pointPath, parsedAt,
    tagOf.
  destruct (member placemark "Point") as [tag|] eqn:Ht; simpl;
    [|discriminate].
  destruct (truthy tag) eqn:Tt; simpl.
  - destruct (item0 tag) as [first|]; simpl; [|discriminate].
    destruct (parseCoordinates _) as [coords|]; simpl; [|discriminate].
    destruct (0 <? List.length coords)%nat; intros [= <-]; simpl;
      branch_done.
  - intros [= <-]; simpl; branch_done.
Qed.

Lemma visitLineString_effect placemark before after :
  visitLineString placemark before = Ok after ->
  branchEffect "LineString" bump_LineString (hasTag "LineString" placemark)
    (1 <? List.length (lineCoords placemark))%nat before after.
Proof.
  destruct before as [counts els].
  unfold visitLineString, branchEffect, hasTag, lineCoords, linePath,
    parsedAt, tagOf.
  destruct (member placemark "LineString") as [tag|] eqn:Ht; simpl;
    [|discriminate].
  destruct (truthy tag) eqn:Tt; simpl.
  - destruct (item0 tag) as [first|]; simpl; [|discriminate].
    destruct (parseCoordinates _) as [coords|]; simpl; [|discriminate].
    destruct (1 <? List.length coords)%nat.
    + destruct (calculateLength coords); simpl; [|discriminate].
      intros [= <-]; simpl; branch_done.
    + intros [= <-]; simpl; branch_done.
  - intros [= <-]; simpl; branch_done.
Qed.

Lemma visitPolygon_effect placemark before after :
  visitPolygon placemark before = Ok after ->
  branchEffect "Polygon" bump_Polygon (hasTag "Polygon" placemark)
    (2 <? List.length (ringCoords placemark))%nat before after.
Proof.
  destruct before as [counts els].
  unfold visitPolygon, branchEffect, hasTag, ringCoords, ringPath, parsedAt,
    tagOf.
  destruct (member placemark "Polygon") as [tag|] eqn:Ht; simpl;
    [|discriminate].
  destruct (truthy tag) eqn:Tt; simpl.
  - destruct (item0 tag) as [first|]; simpl; [|discriminate].
    destruct (parseCoordinates _) as [coords|]; simpl; [|discriminate].
    destruct (2 <? List.length coords)%nat; intros [= <-]; simpl;
      branch_done.
  - intros [= <-]; simpl; branch_done.
Qed.

Lemma visitMulti_effect placemark before after :
  visitMulti placemark before = Ok after ->
  branchEffect "MultiLineString" bump_MultiLineString
    (hasMultiTag placemark)
    (0 <? List.length (subLines placemark))%nat before after.
Proof.
  destruct before as [counts els].
  unfold visitMulti, branchEffect, hasMultiTag, subLines, subLinePath.
  destruct (multiTag placemark) as [tag|] eqn:Ht; simpl; [|discriminate].
  destruct (truthy tag) eqn:Tt; simpl.
  - destruct (array_map _ tag) as [parsed|]; simpl; [|discriminate].
    destruct (0 <? List.length (filter _ parsed))%nat.
    + destruct (totalLength _); simpl; [|discriminate].
      intros [= <-]; simpl; branch_done.
    + intros [= <-]; simpl; branch_done.
  - intros [= <-]; simpl; branch_done.
Qed.

Lemma countIf_same (k : string) (new : list Element) :
  Forall (fun e => el_type e = k) new ->
  countIf (ofType k) new = List.length new.
Proof.
  induction 1 as [|e new He _ IH]; [reflexivity|].
  rewrite countIf_cons, IH. unfold ofType. rewrite He, String.eqb_refl.
  reflexivity.
Qed.

Lemma countIf_other (k k' : string) (new : list Element) :
  Forall (fun e => el_type e = k') new ->
  String.eqb k' k = false ->
  countIf (ofType k) new = 0%nat.
Proof.
  intros H Hk. induction H as [|e new He _ IH]; [reflexivity|].
  rewrite countIf_cons, IH. unfold ofType. now rewrite He, Hk.
Qed.

Lemma countIf_single {A} (f : A -> bool) (x : A) :
  countIf f [x] = (if f x then 1 else 0)%nat.
Proof. unfold countIf. simpl. now destruct (f x). Qed.

Lemma visit_tally placemark before after :
  visit before placemark = Ok after -> tally [placemark] before after.
Proof.
  unfold visit.
  destruct (visitPoint placemark before) as [a1|] eqn:E1; simpl;
    [|discriminate].
  destruct (visitLineString placemark a1) as [a2|] eqn:E2; simpl;
    [|discriminate].
  destruct (visitPolygon placemark a2) as [a3|] eqn:E3; simpl;
    [|discriminate].
  intros E4.
  apply visitPoint_effect in E1 as [C1 [n1 [S1 [F1 L1]]]].
  apply visitLineString_effect in E2 as [C2 [n2 [S2 [F2 L2]]]].
  apply visitPolygon_effect in E3 as [C3 [n3 [S3 [F3 L3]]]].
  apply visitMulti_effect in E4 as [C4 [n4 [S4 [F4 L4]]]].
  unfold tally. rewrite !countIf_single.
  unfold yieldsPoint, yieldsLineString, yieldsPolygon,
    yieldsMultiLineString.
  rewrite S4, S3, S2, S1, C4, C3, C2, C1.
  rewrite !countIf_app.
  rewrite (countIf_same F1), (countIf_same F2), (countIf_same F3),
    (countIf_same F4).
  rewrite (countIf_other "Point" F2), (countIf_other "Point" F3),
    (countIf_other "Point" F4) by reflexivity.
  rewrite (countIf_other "LineString" F1),
    (countIf_other "LineString" F3),
    (countIf_other "LineString" F4) by reflexivity.
  rewrite (countIf_other "Polygon" F1),
    (countIf_other "Polygon" F2),
    (countIf_other "Polygon" F4) by reflexivity.
  rewrite (countIf_other "MultiLineString" F1),
    (countIf_other "MultiLineString" F2),
    (countIf_other "MultiLineString" F3) by reflexivity.
  rewrite L1, L2, L3, L4. unfold Nat.ltb.
  destruct (hasTag "Point" placemark), (hasTag "LineString" placemark),
    (hasTag "Polygon" placemark), (hasMultiTag placemark);
    cbn [andb bump_Point bump_LineString bump_Polygon bump_MultiLineString
         Point LineString Polygon MultiLineString];
    repeat split; lia.
Qed.

Lemma tally_nil (acc : Acc) : tally [] acc acc.
Proof. unfold tally, countIf; simpl. repeat split; lia. Qed.

Lemma tally_step placemark placemarks a b c :
  tally [placemark] a b -> tally placemarks b c ->
  tally (placemark :: placemarks) a c.
Proof.
  unfold tally. rewrite !(countIf_cons _ placemark placemarks).
  rewrite !countIf_single.
  intros [[? [? [? ?]]] [? [? [? ?]]]] [[? [? [? ?]]] [? [? [? ?]]]].
  repeat split; lia.
Qed.

Lemma forEach_tally placemarks before after :
  foldM visit placemarks before = Ok after ->
  tally placemarks before after.
Proof.
  revert before. induction placemarks as [|pm pms IH]; intros before; simpl.
  - intros [= <-]. apply tally_nil.
  - destruct (visit before pm) as [mid|] eqn:E; simpl; [|discriminate].
    intros H. exact (tally_step (visit_tally _ _ E) (IH _ H)).
Qed.

Lemma processKMLData_tally placemarks st st' :
  processKMLData placemarks st = Ok st' ->
  exists counts,
    summary st' = Some counts
    /\ tally placemarks (noCounts, []) (counts, elements st').
Proof.
  unfold processKMLData.
  destruct (foldM visit placemarks (noCounts, [])) as [[counts els]|] eqn:E;
    simpl; [|discriminate].
  intros [= <-]. exists counts. split; [reflexivity|].
  now apply forEach_tally.
Qed.

Lemma countIf_le {A} (f g : A -> bool) (l : list A) :
  (forall x, f x = true -> g x = true) ->
  (countIf f l <= countIf g l)%nat.
Proof.
  intros H. induction l as [|x l IH]; [reflexivity|].
  rewrite !countIf_cons. specialize (H x).
  destruct (f x), (g x); try lia; now specialize (H eq_refl).
Qed.

(** C10. After a placemark list is processed, the summary has exactly the
    four keys Point, LineString, Polygon and MultiLineString, and the
    count of each kind is at least the number of records of that kind. *)
Theorem processKMLData_counts_bound_records placemarks st st' :
  processKMLData placemarks st = Ok st' ->
  exists counts,
    summary st' = Some counts
    /\ map fst (Object_entries counts)
       = ["Point"; "LineString"; "Polygon"; "MultiLineString"]
    /\ (countIf (ofType "Point") (elements st') <= Point counts)%nat
    /\ (countIf (ofType "LineString") (elements st')
        <= LineString counts)%nat
    /\ (countIf (ofType "Polygon") (elements st') <= Polygon counts)%nat
    /\ (countIf (ofType "MultiLineString") (elements st')
        <= MultiLineString counts)%nat.
Proof.
  intros H. apply processKMLData_tally in H as [counts [Hs [Hc He]]].
  exists counts. split; [exact Hs|]. split; [reflexivity|].
  simpl in Hc, He.
  destruct Hc as [-> [-> [-> ->]]]. destruct He as [-> [-> [-> ->]]].
  repeat split; apply countIf_le; intros pm Hpm;
    apply andb_prop in Hpm as [Hpm _]; exact Hpm.
Qed.

(* ------------------------------------------------------------------ *)
(** ** Arithmetic of numbers *)

Lemma Rzero_false (r : R) : r <> 0%R -> Rzero r = false.
Proof. intros H. unfold Rzero. now destruct (Req_dec_T r 0). Qed.

Lemma Rzero_true (r : R) : r = 0%R -> Rzero r = true.
Proof. intros H. unfold Rzero. now destruct (Req_dec_T r 0). Qed.

Lemma Rneg_false (r : R) : (0 <= r)%R -> Rneg r = false.
Proof. intros H. unfold Rneg. destruct (Rlt_dec r 0); [lra | reflexivity]. Qed.

Lemma Rneg_true (r : R) : (r < 0)%R -> Rneg r = true.
Proof. intros H. unfold Rneg. destruct (Rlt_dec r 0); [reflexivity | lra]. Qed.

Lemma add_comm (x y : number) : add x y = add y x.
Proof.
  destruct x as [|s|a], y as [|t|b]; simpl; try reflexivity.
  - destruct s, t; reflexivity.
  - f_equal; ring.
Qed.

Lemma add_assoc (x y z : number) : add (add x y) z = add x (add y z).
Proof.
  destruct x as [|s|a], y as [|t|b], z as [|u|c]; simpl; try reflexivity;
    try (destruct s; reflexivity);
    try (destruct s, t; reflexivity);
    try (destruct t, u; reflexivity);
    try (destruct s, u; reflexivity);
    try (destruct s, t, u; reflexivity).
  f_equal; ring.
Qed.

Lemma add_0_r (x : number) : add x (of_Z 0) = x.
Proof. destruct x as [|s|a]; simpl; try reflexivity. f_equal; ring. Qed.

Lemma add_0_l (x : number) : add (of_Z 0) x = x.
Proof. rewrite add_comm. apply add_0_r. Qed.

Lemma PI_not_neg : Rneg PI = false.
Proof. apply Rneg_false. pose proof PI_RGT_0. lra. Qed.

Lemma PI_not_zero : Rzero PI = false.
Proof. apply Rzero_false. pose proof PI_RGT_0. lra. Qed.

Lemma radians_Fin (r : R) : radians (Fin r) = Fin (r * PI / 180).
Proof.
  unfold radians, of_Z. simpl. rewrite Rzero_false by lra. reflexivity.
Qed.

Lemma radians_Inf (s : bool) : radians (Inf s) = Inf s.
Proof.
  unfold radians, of_Z. simpl. rewrite PI_not_zero, PI_not_neg. simpl.
  rewrite Rneg_false by lra. now destruct s.
Qed.

Lemma radians_NaN : radians NaN = NaN.
Proof. reflexivity. Qed.

(** Converting a difference of degrees, or the difference of the
    conversions: the same number. *)
Lemma radians_sub (x y : number) :
  radians (sub x y) = sub (radians x) (radians y).
Proof.
  destruct x as [|s|a], y as [|t|b]; unfold sub; simpl neg; simpl add;
    rewrite ?radians_Inf, ?radians_Fin, ?radians_NaN; simpl;
    try reflexivity.
  - destruct (Bool.eqb s (negb t)); [apply radians_Inf | reflexivity].
  - f_equal. field.
Qed.

Lemma sin_plain (x : number) : plain (Math_sin x).
Proof. destruct x; simpl; [left | left | right; eexists]; reflexivity. Qed.

Lemma cos_plain (x : number) : plain (Math_cos x).
Proof. destruct x; simpl; [left | left | right; eexists]; reflexivity. Qed.

Lemma mul_plain (x y : number) : plain x -> plain y -> plain (mul x y).
Proof.
  intros [-> | [a ->]] [-> | [b ->]]; simpl;
    [left | left | left | right; eexists]; reflexivity.
Qed.

Lemma mul_shift (c s : number) :
  plain c -> plain s -> mul (mul c s) s = mul c (squared s).
Proof.
  intros [-> | [a ->]] [-> | [b ->]]; simpl; try reflexivity.
  f_equal; ring.
Qed.

(** The expression of lines 53-63 is the haversine distance. *)
Lemma segment_haversine (lat1 lon1 lat2 lon2 : number) :
  segment lat1 lon1 lat2 lon2 = haversine lat1 lon1 lat2 lon2.
Proof.
  unfold segment, haversine.
  change (div (mul (sub lat2 lat1) Math_PI) (of_Z 180))
    with (radians (sub lat2 lat1)).
  change (div (mul (sub lon2 lon1) Math_PI) (of_Z 180))
    with (radians (sub lon2 lon1)).
  change (div (mul lat1 Math_PI) (of_Z 180)) with (radians lat1).
  change (div (mul lat2 Math_PI) (of_Z 180)) with (radians lat2).
  rewrite !radians_sub.
  rewrite mul_shift;
    [reflexivity | apply mul_plain; apply cos_plain | apply sin_plain].
Qed.

(* ------------------------------------------------------------------ *)
(** ** The length of a path *)

Lemma only_TypeError {A} (e : error) : @Throw A e = Throw TypeError.
Proof. now destruct e. Qed.

Lemma loop_body_iterable (coords : list jsval) (length : number) (i : nat)
  (p q : jsval) :
  iterable p = true -> iterable q = true ->
  nth (i - 1) coords JUndefined = p ->
  nth i coords JUndefined = q ->
  loop_body coords length i = Ok (add length (stepLength p q)).
Proof.
  intros Ip Iq Hp Hq.
  unfold loop_body, stepLength, endsValid, firstTwo, iterable in *.
  rewrite Hp, Hq.
  destruct (destructure2 p) as [[a b]|]; [|discriminate].
  destruct (destructure2 q) as [[c d]|]; [|discriminate].
  cbn [bind fst snd].
  destruct (isValidCoordinate (JArr [a; b]));
    destruct (isValidCoordinate (JArr [c; d]));
    cbn [negb orb andb]; rewrite ?add_0_r; trivial.
Qed.

Lemma loop_body_throws (coords : list jsval) (length : number) (i : nat) :
  iterable (nth (i - 1) coords JUndefined) = false
  \/ iterable (nth i coords JUndefined) = false ->
  loop_body coords length i = Throw TypeError.
Proof.
  unfold loop_body, iterable.
  destruct (destructure2 (nth (i - 1) coords JUndefined)) as [[a b]|e].
  - intros [H|H]; [discriminate|]. cbn [bind].
    destruct (destructure2 (nth i coords JUndefined)) as [[c d]|e];
      [discriminate|]. apply only_TypeError.
  - intros _. apply only_TypeError.
Qed.

Lemma nth_here (pre rest : list jsval) (p : jsval) :
  nth (S (List.length pre) - 1) (pre ++ p :: rest) JUndefined = p.
Proof.
  replace (S (List.length pre) - 1)%nat with (List.length pre) by lia.
  apply nth_middle.
Qed.

Lemma nth_next (pre rest : list jsval) (p q : jsval) :
  nth (S (List.length pre)) (pre ++ p :: q :: rest) JUndefined = q.
Proof.
  replace (pre ++ p :: q :: rest) with ((pre ++ [p]) ++ q :: rest)
    by now rewrite <- app_assoc.
  replace (S (List.length pre)) with (List.length (pre ++ [p]))
    by (rewrite length_app; simpl; lia).
  apply nth_middle.
Qed.

Lemma shift_prefix (pre rest : list jsval) (p q : jsval) :
  pre ++ p :: q :: rest = (pre ++ [p]) ++ q :: rest.
Proof. now rewrite <- app_assoc. Qed.

Lemma length_snoc (pre : list jsval) (p : jsval) :
  List.length (pre ++ [p]) = S (List.length pre).
Proof. rewrite length_app; simpl; lia. Qed.

Lemma loop_is_walk (rest pre : list jsval) (p : jsval) (length : number) :
  Forall (fun v => iterable v = true) (p :: rest) ->
  foldM (loop_body (pre ++ p :: rest))
    (seq (S (List.length pre)) (List.length rest)) length
  = Ok (walk length (p :: rest)).
Proof.
  revert pre p length.
  induction rest as [|q rest IH]; intros pre p length Hall; [reflexivity|].
  inversion Hall as [|? ? Hp Hrest]; subst.
  inversion Hrest as [|? ? Hq _]; subst.
  cbn [List.length seq foldM].
  rewrite (@loop_body_iterable (pre ++ p :: q :: rest) length
             (S (List.length pre)) p q Hp Hq (nth_here _ _ _)
             (nth_next _ _ _ _)).
  cbn [bind walk].
  rewrite shift_prefix, <- (length_snoc pre p).
  now apply IH.
Qed.

Lemma loop_throws (rest pre : list jsval) (p : jsval) (length : number) :
  rest <> [] ->
  Exists (fun v => iterable v = false) (p :: rest) ->
  foldM (loop_body (pre ++ p :: rest))
    (seq (S (List.length pre)) (List.length rest)) length
  = Throw TypeError.
Proof.
  revert pre p length.
  induction rest as [|q rest IH]; intros pre p length Hne Hex;
    [congruence|].
  cbn [List.length seq foldM].
  destruct (iterable p) eqn:Ip; [destruct (iterable q) eqn:Iq|].
  - rewrite (@loop_body_iterable (pre ++ p :: q :: rest) length
               (S (List.length pre)) p q Ip Iq (nth_here _ _ _)
               (nth_next _ _ _ _)).
    cbn [bind].
    rewrite shift_prefix, <- (length_snoc pre p).
    inversion Hex as [? ? Hp | ? ? Hrest]; subst; [congruence|].
    destruct rest as [|r rest].
    + inversion Hrest as [? ? Hq | ? ? Hnil]; subst;
        [congruence | inversion Hnil].
    + apply IH; [discriminate | exact Hrest].
  - rewrite loop_body_throws; [reflexivity|].
    right. now rewrite nth_next.
  - rewrite loop_body_throws; [reflexivity|].
    left. now rewrite nth_here.
Qed.

Lemma walk_is_sum (coords : list jsval) (length : number) :
  walk length coords = add length (stepSum coords).
Proof.
  revert length. induction coords as [|p coords IH]; intros length.
  - simpl. now rewrite add_0_r.
  - destruct coords as [|q rest].
    + simpl. now rewrite add_0_r.
    + change (walk length (p :: q :: rest))
        with (walk (add length (stepLength p q)) (q :: rest)).
      rewrite IH.
      change (stepSum (p :: q :: rest))
        with (add (stepLength p q) (stepSum (q :: rest))).
      apply add_assoc.
Qed.

(** The loop on a list whose every element can be destructured. *)
Lemma pathLength_iterable (coords : list jsval) :
  Forall (fun v => iterable v = true) coords ->
  pathLength coords = Ok (stepSum coords).
Proof.
  intros Hall. unfold pathLength. destruct coords as [|p rest].
  - reflexivity.
  - cbn [List.length].
    replace (S (List.length rest) - 1)%nat with (List.length rest) by lia.
    pose proof (loop_is_walk [] (of_Z 0) Hall) as Hloop.
    cbn [app List.length] in Hloop. rewrite Hloop.
    now rewrite walk_is_sum, add_0_l.
Qed.

(** The loop on a list with an element that cannot be destructured. *)
Lemma pathLength_throws (coords : list jsval) :
  (2 <= List.length coords)%nat ->
  Exists (fun v => iterable v = false) coords ->
  pathLength coords = Throw TypeError.
Proof.
  intros Hlen Hex. unfold pathLength. destruct coords as [|p rest].
  - simpl in Hlen; lia.
  - cbn [List.length].
    replace (S (List.length rest) - 1)%nat with (List.length rest) by lia.
    assert (Hne : rest <> []) by (destruct rest; simpl in Hlen;
                                   [lia | discriminate]).
    pose proof (loop_throws [] (of_Z 0) Hne Hex) as Hloop.
    cbn [app List.length] in Hloop. exact Hloop.
Qed.

Lemma pair_iterable (v : jsval) : isPair v -> iterable v = true.
Proof. now intros [a [b ->]]. Qed.

Lemma stepLength_pairs (p q : jsval) :
  isPair p -> isPair q -> stepLength p q = contribution p q.
Proof.
  intros [a [b ->]] [c [d ->]]. unfold stepLength, contribution, endsValid.
  cbn [firstTwo destructure2 nth fst snd latOf lonOf].
  now rewrite segment_haversine.
Qed.

Lemma stepSum_pairs (coords : list jsval) :
  Forall isPair coords -> stepSum coords = sumOfSegments coords.
Proof.
  induction 1 as [|p coords Hp Hall IH]; [reflexivity|].
  destruct coords as [|q rest]; [reflexivity|].
  change (stepSum (p :: q :: rest))
    with (add (stepLength p q) (stepSum (q :: rest))).
  rewrite IH. inversion Hall; subst.
  now rewrite stepLength_pairs.
Qed.

Lemma pathLength_pairs (coords : list jsval) :
  Forall isPair coords -> pathLength coords = Ok (sumOfSegments coords).
Proof.
  intros Hall. rewrite pathLength_iterable.
  - now rewrite stepSum_pairs.
  - eapply Forall_impl; [|exact Hall]. apply pair_iterable.
Qed.

(* ------------------------------------------------------------------ *)
(** ** Reading back what [toFixed(2)] prints *)

















(* ------------------------------------------------------------------ *)
(** ** Bounds on lengths *)









(* ------------------------------------------------------------------ *)
(** ** The combined length of a MultiLineString *)

Lemma mapM_Forall {A B} (f : A -> result B) (P : B -> Prop) :
  (forall x y, f x = Ok y -> P y) ->
  forall l ys, mapM f l = Ok ys -> Forall P ys.
Proof.
  intros Hf. induction l as [|x l IH]; intros ys; simpl.
  - intros [= <-]. constructor.
  - destruct (f x) as [y|] eqn:Ex; simpl; [|discriminate].
    destruct (mapM f l) as [ys'|]; simpl; [|discriminate].
    intros [= <-]. constructor; [now apply (Hf x) | now apply IH].
Qed.

Lemma parseCoordinates_pairs (v : jsval) (coords : list jsval) :
  parseCoordinates v = Ok coords -> Forall isPair coords.
Proof.
  unfold parseCoordinates. destruct (truthy v); simpl.
  - destruct v; try discriminate. rewrite kept_tuples.
    intros [= <-]. apply Forall_forall. intros c Hc.
    apply in_map_iff in Hc as [t [<- _]]. unfold swapped, isPair. eauto.
  - intros [= <-]. constructor.
Qed.









(* ------------------------------------------------------------------ *)
(** ** A segment along the equator *)

Lemma half_Fin (r : R) : div (Fin r) (of_Z 2) = Fin (r / 2).
Proof. unfold of_Z. simpl. now rewrite Rzero_false by lra. Qed.

Lemma sub_Fin (a b : R) : sub (Fin a) (Fin b) = Fin (a + - b).
Proof. reflexivity. Qed.

Lemma add_Fin (a b : R) : add (Fin a) (Fin b) = Fin (a + b).
Proof. reflexivity. Qed.

Lemma mul_Fin (a b : R) : mul (Fin a) (Fin b) = Fin (a * b).
Proof. reflexivity. Qed.

Lemma squared_Fin (a : R) : squared (Fin a) = Fin (a * a).
Proof. reflexivity. Qed.

Lemma sin_Fin (a : R) : Math_sin (Fin a) = Fin (sin a).
Proof. reflexivity. Qed.

Lemma cos_Fin (a : R) : Math_cos (Fin a) = Fin (cos a).
Proof. reflexivity. Qed.

Lemma sqrt_Fin (a : R) : (0 <= a)%R -> Math_sqrt (Fin a) = Fin (sqrt a).
Proof. intros H. unfold Math_sqrt. now rewrite Rneg_false. Qed.

Lemma atan2_Fin (a b : R) :
  Math_atan2 (Fin a) (Fin b) = Fin (Ratan2 a b).
Proof. reflexivity. Qed.

Create Rewrite HintDb finite.
#[local] Hint Rewrite radians_Fin half_Fin sub_Fin add_Fin mul_Fin
  squared_Fin sin_Fin cos_Fin atan2_Fin : finite.

Lemma equator_segment (lat1 lon1 lat2 lon2 : R) :
  lat1 = 0%R -> lat2 = 0%R -> lon1 = 0%R -> (0 < lon2 < 180)%R ->
  haversine (Fin lat1) (Fin lon1) (Fin lat2) (Fin lon2)
  = Fin (6371 * (lon2 * PI / 180)).
Proof.
  intros -> -> -> Hlon. pose proof PI_RGT_0 as Hpi.
  unfold haversine. autorewrite with finite.
  set (h := ((lon2 * PI / 180 + - (0 * PI / 180)) / 2)%R).
  assert (Hh : (0 < h < PI / 2)%R) by (unfold h; split; nra).
  assert (Hsin : (0 < sin h)%R) by (apply sin_gt_0; lra).
  assert (Hcos : (0 < cos h)%R) by (apply cos_gt_0; lra).
  replace (sin ((0 * PI / 180 + - (0 * PI / 180)) / 2)
           * sin ((0 * PI / 180 + - (0 * PI / 180)) / 2)
           + cos (0 * PI / 180) * cos (0 * PI / 180) * (sin h * sin h))%R
    with (Rsqr (sin h)).
  2:{ replace ((0 * PI / 180 + - (0 * PI / 180)) / 2)%R with 0%R by field.
      replace (0 * PI / 180)%R with 0%R by field.
      rewrite sin_0, cos_0. unfold Rsqr. ring. }
  rewrite sqrt_Fin by apply Rle_0_sqr.
  change (of_Z 1) with (Fin 1). rewrite sub_Fin.
  replace (1 + - Rsqr (sin h))%R with (Rsqr (cos h))
    by (rewrite cos2; ring).
  rewrite sqrt_Fin by apply Rle_0_sqr.
  rewrite !sqrt_Rsqr by lra.
  unfold of_Z. rewrite atan2_Fin, !mul_Fin. f_equal.
  unfold Ratan2. destruct (Rlt_dec 0 (cos h)); [|lra].
  change (sin h / cos h)%R with (tan h).
  rewrite atan_tan by lra.
  unfold h. field.
Qed.

Lemma toFixed2_value (r : R) (n : Z) :
  (0 <= r < 10 ^ 21)%R ->
  (IZR n <= r * 100 + / 2 < IZR n + 1)%R ->
  toFixed2 (Fin r) = fixed_digits 2 n.
Proof.
  intros [Hlo Hhi] Hn. unfold toFixed2.
  rewrite Rneg_false by exact Hlo.
  rewrite Rabs_pos_eq by exact Hlo.
  destruct (Rle_dec (10 ^ 21) r) as [Hbig|_]; [lra|].
  replace (Int_part (r * 100 + / 2)) with n; [reflexivity|].
  apply Int_part_spec. lra.
Qed.




(* ------------------------------------------------------------------ *)
(** ** Well-formed placemarks are processed without exception *)

Lemma parseCoordinates_readable (v : jsval) :
  readable v -> exists coords, parseCoordinates v = Ok coords.
Proof.
  unfold parseCoordinates. intros [H | [s ->]].
  - rewrite H. simpl. eauto.
  - destruct (truthy (JStr s)); simpl; eauto.
Qed.

Lemma member_defined (v : jsval) (k : string) :
  nullish v = false -> member v k = Ok (tagOf k v).
Proof. unfold tagOf. destruct v; simpl; intros H; try discriminate; auto. Qed.

Lemma item0_defined (v : jsval) :
  truthy v = true -> item0 v = Ok (unwrap (item0 v)).
Proof. destruct v; simpl; intros H; try discriminate; auto. Qed.

Lemma calculateLength_pairs_ok (coords : list jsval) :
  Forall isPair coords -> exists v, calculateLength coords = Ok v.
Proof.
  intros Hp. unfold calculateLength.
  destruct (List.length coords <? 2)%nat; [eauto|].
  rewrite (pathLength_pairs Hp). simpl. eauto.
Qed.

Lemma foldM_ok {A S} (f : S -> A -> result S) (P : A -> Prop) :
  (forall s x, P x -> exists s', f s x = Ok s') ->
  forall l s, Forall P l -> exists s', foldM f l s = Ok s'.
Proof.
  intros Hf. induction l as [|x l IH]; intros s Hall; simpl; [eauto|].
  inversion Hall; subst.
  destruct (Hf s x) as [s' ->]; [assumption|]. simpl. now apply IH.
Qed.

Lemma mapM_ok {A B} (f : A -> result B) (l : list A) :
  Forall (fun x => exists y, f x = Ok y) l -> exists ys, mapM f l = Ok ys.
Proof.
  induction 1 as [|x l [y Hy] _ [ys Hys]]; simpl; [eauto|].
  rewrite Hy, Hys. simpl. eauto.
Qed.

Lemma totalLength_ok (multiCoords : list (list jsval)) :
  Forall (fun coords => Forall isPair coords) multiCoords ->
  exists total, totalLength multiCoords = Ok total.
Proof.
  unfold totalLength. apply foldM_ok. intros s coords Hp.
  unfold addLength. destruct (@calculateLength_pairs_ok coords Hp) as [v ->].
  simpl. eauto.
Qed.

Lemma visitPoint_ok placemark acc :
  nullish placemark = false -> readable (pointPath placemark) ->
  exists acc', visitPoint placemark acc = Ok acc'.
Proof.
  intros Hn Hr. destruct acc as [counts els]. unfold visitPoint.
  rewrite (@member_defined placemark "Point" Hn). cbn [bind].
  destruct (truthy (tagOf "Point" placemark)) eqn:Tt; [|eauto].
  rewrite (@item0_defined _ Tt). cbn [bind].
  destruct (@parseCoordinates_readable _ Hr) as [coords Hc].
  unfold pointPath in Hc. rewrite Hc. cbn [bind].
  destruct (0 <? List.length coords)%nat; eauto.
Qed.

Lemma visitLineString_ok placemark acc :
  nullish placemark = false -> readable (linePath placemark) ->
  exists acc', visitLineString placemark acc = Ok acc'.
Proof.
  intros Hn Hr. destruct acc as [counts els]. unfold visitLineString.
  rewrite (@member_defined placemark "LineString" Hn). cbn [bind].
  destruct (truthy (tagOf "LineString" placemark)) eqn:Tt; [|eauto].
  rewrite (@item0_defined _ Tt). cbn [bind].
  destruct (@parseCoordinates_readable _ Hr) as [coords Hc].
  unfold linePath in Hc. rewrite Hc. cbn [bind].
  destruct (1 <? List.length coords)%nat; [|eauto].
  destruct (@calculateLength_pairs_ok coords
              (@parseCoordinates_pairs _ coords Hc)) as [v ->].
  cbn [bind]. eauto.
Qed.

Lemma visitPolygon_ok placemark acc :
  nullish placemark = false -> readable (ringPath placemark) ->
  exists acc', visitPolygon placemark acc = Ok acc'.
Proof.
  intros Hn Hr. destruct acc as [counts els]. unfold visitPolygon.
  rewrite (@member_defined placemark "Polygon" Hn). cbn [bind].
  destruct (truthy (tagOf "Polygon" placemark)) eqn:Tt; [|eauto].
  rewrite (@item0_defined _ Tt). cbn [bind].
  destruct (@parseCoordinates_readable _ Hr) as [coords Hc].
  unfold ringPath in Hc. rewrite Hc. cbn [bind].
  destruct (2 <? List.length coords)%nat; eauto.
Qed.

Lemma multiTag_defined placemark :
  nullish placemark = false ->
  multiTag placemark = Ok (unwrap (multiTag placemark)).
Proof.
  intros Hn. unfold multiTag.
  rewrite (@member_defined placemark "MultiGeometry" Hn). cbn [bind].
  destruct (truthy (tagOf "MultiGeometry" placemark)) eqn:Tt; [|reflexivity].
  rewrite (@item0_defined _ Tt). reflexivity.
Qed.

Lemma visitMulti_ok placemark acc :
  wellFormed placemark -> exists acc', visitMulti placemark acc = Ok acc'.
Proof.
  intros [Hn [_ [_ [_ Hm]]]]. destruct acc as [counts els].
  unfold visitMulti. rewrite (@multiTag_defined placemark Hn). cbn [bind].
  unfold hasMultiTag in Hm.
  destruct (truthy (unwrap (multiTag placemark))) eqn:Tt; [|eauto].
  destruct (Hm eq_refl) as [lines [-> Hlines]].
  unfold array_map.
  destruct (@mapM_ok _ _ (fun line => parseCoordinates (subLinePath line))
              lines) as [parsed Hparsed].
  { eapply Forall_impl; [|exact Hlines].
    intros line. apply parseCoordinates_readable. }
  unfold subLinePath in Hparsed. rewrite Hparsed. cbn [bind].
  destruct (0 <? _)%nat; [|eauto].
  destruct (@totalLength_ok
              (filter (fun coords => (1 <? List.length coords)%nat) parsed))
    as [total ->].
  { apply Forall_forall. intros coords Hin.
    apply filter_In in Hin as [Hin _].
    eapply mapM_Forall in Hparsed.
    - rewrite Forall_forall in Hparsed. exact (Hparsed _ Hin).
    - intros x y. apply parseCoordinates_pairs. }
  cbn [bind]. eauto.
Qed.

Lemma visit_ok placemark acc :
  wellFormed placemark -> exists acc', visit acc placemark = Ok acc'.
Proof.
  intros Hw. pose proof Hw as [Hn [Hp [Hl [Hr _]]]]. unfold visit.
  destruct (@visitPoint_ok placemark acc Hn Hp) as [a1 ->]. cbn [bind].
  destruct (@visitLineString_ok placemark a1 Hn Hl) as [a2 ->]. cbn [bind].
  destruct (@visitPolygon_ok placemark a2 Hn Hr) as [a3 ->]. cbn [bind].
  now apply visitMulti_ok.
Qed.

(** On well-formed placemarks [processKMLData] returns. *)
Lemma processKMLData_returns placemarks st :
  Forall wellFormed placemarks ->
  exists st', processKMLData placemarks st = Ok st'.
Proof.
  intros Hall. unfold processKMLData.
  destruct (@foldM_ok _ _ visit wellFormed
              (fun s x Hx => @visit_ok x s Hx) placemarks (noCounts, []) Hall)
    as [[counts els] ->].
  cbn [bind]. eauto.
Qed.

(* ------------------------------------------------------------------ *)
(** ** More on coordinate parsing *)

Lemma words_skip_ws (s : string) : words (skip_ws s) = words s.
Proof.
  unfold words. induction s as [|c s IH]; [reflexivity|].
  simpl. destruct (is_ws c) eqn:Hc; [exact IH|].
  simpl. now rewrite Hc.
Qed.

Lemma words_from_nil (cur : string) :
  words_from cur "" = if String.eqb cur "" then [] else [cur].
Proof. reflexivity. Qed.

Lemma append_char_nonempty (cur : string) (c : ascii) :
  String.eqb (cur ++ String c EmptyString) "" = false.
Proof. destruct cur; reflexivity. Qed.

Lemma words_from_cons (cur : string) (c : ascii) (s : string) :
  words_from cur (String c s)
  = if is_ws c then
      if String.eqb cur "" then words_from "" s else cur :: words_from "" s
    else words_from (cur ++ String c EmptyString) s.
Proof. reflexivity. Qed.

Lemma words_from_trim_end (s : string) :
  forall cur, words_from cur (trim_end s) = words_from cur s.
Proof.
  induction s as [|c s IH]; intros cur; [reflexivity|].
  cbn [trim_end]. destruct (trim_end s) as [|d t] eqn:Et.
  - rewrite (words_from_cons cur c s). destruct (is_ws c) eqn:Hc.
    + rewrite <- !IH. cbn [words_from].
      now destruct (String.eqb cur "").
    + rewrite words_from_cons, Hc. now rewrite <- IH.
  - rewrite !(words_from_cons cur c). destruct (is_ws c); now rewrite !IH.
Qed.

Lemma words_trim (s : string) : words (trim s) = words s.
Proof.
  unfold trim, words. rewrite words_from_trim_end. apply words_skip_ws.
Qed.

(** The pieces [split] gives, the empty ones left out, are the words. *)
Lemma split_ws_words (s : string) :
  forall (in_ws : bool) (cur : string),
    (in_ws = true -> cur = ""%string) ->
    filter nonempty (split_ws_from in_ws cur s) = words_from cur s.
Proof.
  induction s as [|c s IH]; intros in_ws cur Hcur.
  - cbn [split_ws_from words_from filter]. unfold nonempty.
    now destruct (String.eqb cur "").
  - cbn [split_ws_from words_from]. destruct (is_ws c).
    + destruct in_ws.
      * rewrite (Hcur eq_refl). simpl String.eqb. cbv iota.
        now apply IH.
      * cbn [filter]. unfold nonempty at 1.
        destruct (String.eqb cur ""); cbn [negb];
          rewrite (IH true ""%string); auto.
    + apply IH. discriminate.
Qed.

Lemma words_from_append (s1 s2 : string) (sep : ascii) :
  is_ws sep = true ->
  forall cur,
    words_from cur (s1 ++ String sep s2)
    = words_from cur s1 ++ words s2.
Proof.
  intros Hsep. induction s1 as [|c s1 IH]; intros cur.
  - cbn [String.append words_from]. rewrite Hsep. unfold words.
    now destruct (String.eqb cur "").
  - cbn [String.append words_from]. destruct (is_ws c).
    + destruct (String.eqb cur ""); rewrite IH; reflexivity.
    + apply IH.
Qed.

Lemma bothNumbers_nonempty (tuple : string) :
  bothNumbers tuple = true -> nonempty tuple = true.
Proof. destruct tuple; [discriminate | reflexivity]. Qed.

Lemma filter_through {A} (f g : A -> bool) (l : list A) :
  (forall x, f x = true -> g x = true) ->
  filter f (filter g l) = filter f l.
Proof.
  intros H. induction l as [|x l IH]; [reflexivity|]. simpl.
  destruct (g x) eqn:G; simpl.
  - now rewrite IH.
  - destruct (f x) eqn:F; [|exact IH]. rewrite (H x F) in G. discriminate.
Qed.

(** What is kept depends on the words of the string only. *)
Lemma parseCoordinates_words (s : string) :
  parseCoordinates (JStr s) = Ok (map swapped (filter bothNumbers (words s))).
Proof.
  rewrite parseCoordinates_string. do 2 f_equal.
  rewrite <- (filter_through bothNumbers nonempty
                (split_ws (trim s)) bothNumbers_nonempty).
  unfold split_ws. rewrite split_ws_words by discriminate.
  fold (words (trim s)). now rewrite words_trim.
Qed.

(** X1. Parsing two coordinate strings joined by a white-space character
    gives the coordinates of the first followed by those of the second. *)
Theorem parseCoordinates_append (s1 s2 : string) (sep : ascii) :
  is_ws sep = true ->
  parseCoordinates (JStr (s1 ++ String sep s2))
  = Ok (parsedAt (JStr s1) ++ parsedAt (JStr s2)).
Proof.
  intros Hsep. unfold parsedAt. rewrite !parseCoordinates_words.
  unfold words at 1. rewrite (words_from_append s1 s2 sep Hsep).
  fold (words s1). now rewrite filter_app, map_app.
Qed.

Lemma append_snoc (cur a : string) (c : ascii) :
  ((cur ++ String c EmptyString) ++ a = cur ++ String c a)%string.
Proof. induction cur as [|d cur IH]; simpl; [reflexivity | now rewrite IH]. Qed.

Lemma append_empty (cur : string) : (cur ++ "" = cur)%string.
Proof. induction cur as [|d cur IH]; simpl; [reflexivity | now rewrite IH]. Qed.

Lemma split_comma_field (a s : string) :
  comma_free a = true ->
  forall cur,
    split_comma_from cur (a ++ String "," s)
    = (cur ++ a)%string :: split_comma s.
Proof.
  intros Ha. induction a as [|c a IH]; intros cur.
  - cbn [String.append split_comma_from]. simpl Ascii.eqb. cbv iota.
    now rewrite append_empty.
  - cbn [comma_free] in Ha. apply andb_prop in Ha as [Hc Ha].
    cbn [String.append split_comma_from].
    destruct (Ascii.eqb c ","); [discriminate|].
    rewrite (IH Ha). now rewrite append_snoc.
Qed.

Lemma split_comma_last (a : string) :
  comma_free a = true ->
  forall cur, split_comma_from cur a = [(cur ++ a)%string].
Proof.
  intros Ha. induction a as [|c a IH]; intros cur.
  - cbn [split_comma_from]. now rewrite append_empty.
  - cbn [comma_free] in Ha. apply andb_prop in Ha as [Hc Ha].
    cbn [split_comma_from]. destruct (Ascii.eqb c ","); [discriminate|].
    rewrite (IH Ha). now rewrite append_snoc.
Qed.

(** X2. The altitude, and whatever else follows the second comma of a
    tuple, is ignored: the tuple is kept or dropped, and read, as the
    tuple of its first two fields. *)
Theorem parseTuple_ignores_altitude (lng lat alt : string) :
  comma_free lng = true -> comma_free lat = true ->
  parseTuple (lng ++ String "," (lat ++ String "," alt))
  = parseTuple (lng ++ String "," lat).
Proof.
  intros Hlng Hlat. unfold parseTuple, split_comma.
  rewrite !(@split_comma_field lng _ Hlng). unfold split_comma.
  rewrite (@split_comma_field lat alt Hlat), (@split_comma_last lat Hlat).
  reflexivity.
Qed.

(* ------------------------------------------------------------------ *)
(** ** More on the length of a path *)

(** X3. [calculateLength] returns (instead of throwing a TypeError)
    exactly when the list has fewer than two elements or every element can
    be destructured, that is, is an array or a string. *)
Theorem calculateLength_returns_iff (coords : list jsval) :
  (exists v, calculateLength coords = Ok v)
  <-> ((List.length coords < 2)%nat
       \/ Forall (fun c => iterable c = true) coords).
Proof.
  unfold calculateLength.
  destruct (Nat.ltb_spec (List.length coords) 2) as [Hlt|Hge].
  - split; [now left | eauto].
  - destruct (Forall_Exists_dec (fun c => iterable c = true)
                (fun c => bool_dec (iterable c) true) coords) as [Hall|Hex].
    + rewrite (pathLength_iterable Hall). cbn [bind].
      split; [now right | eauto].
    + assert (Hex' : Exists (fun c => iterable c = false) coords).
      { eapply Exists_impl; [|exact Hex].
        intros c Hc. now apply not_true_is_false. }
      rewrite (pathLength_throws Hge Hex'). cbn [bind]. split.
      * intros [v Hv]. discriminate.
      * intros [Hlt | Hall]; [lia|].
        exfalso. apply Exists_exists in Hex' as [c [Hin Hc]].
        rewrite Forall_forall in Hall. rewrite (Hall c Hin) in Hc.
        discriminate.
Qed.

Lemma valid_shape (c : jsval) :
  isValidCoordinate c = true ->
  exists a b, c = JArr [JNum a; JNum b]
              /\ isNaN a = false /\ isNaN b = false.
Proof.
  destruct c as [| | | | |items|]; try discriminate.
  destruct items as [|x [|y [|z items]]]; try discriminate.
  destruct x; try discriminate. destruct y; try discriminate.
  simpl. intros H. apply andb_prop in H as [Ha Hb].
  apply negb_true_iff in Ha, Hb. eauto.
Qed.

Lemma add_NaN_r (x : number) : add x NaN = NaN.
Proof. now destruct x. Qed.

Lemma mul_NaN_r (x : number) : mul x NaN = NaN.
Proof. now destruct x. Qed.

Lemma sin_half_of_sub_Inf_r (x : number) (s : bool) :
  Math_sin (div (sub x (Inf s)) (of_Z 2)) = NaN.
Proof.
  destruct x as [|t|r]; unfold sub, of_Z; simpl; try reflexivity.
  destruct (Bool.eqb t (negb s)); reflexivity.
Qed.

Lemma sin_half_of_sub_Inf_l (x : number) (s : bool) :
  Math_sin (div (sub (Inf s) x) (of_Z 2)) = NaN.
Proof.
  destruct x as [|t|r]; unfold sub, of_Z; simpl; try reflexivity.
  destruct (Bool.eqb s (negb t)); reflexivity.
Qed.

Lemma haversine_infinite (lat1 lon1 lat2 lon2 : number) :
  isFinite lat1 && isFinite lon1 && isFinite lat2 && isFinite lon2 = false ->
  isNaN lat1 = false -> isNaN lon1 = false ->
  isNaN lat2 = false -> isNaN lon2 = false ->
  haversine lat1 lon1 lat2 lon2 = NaN.
Proof.
  intros Hinf N1 N2 N3 N4. unfold haversine.
  assert (Ha :
    add (squared (Math_sin
                    (div (sub (radians lat2) (radians lat1)) (of_Z 2))))
        (mul (mul (Math_cos (radians lat1)) (Math_cos (radians lat2)))
             (squared (Math_sin
                         (div (sub (radians lon2) (radians lon1))
                              (of_Z 2)))))
    = NaN).
  { destruct lat1 as [|s1|a1]; [discriminate| |].
    { rewrite radians_Inf, sin_half_of_sub_Inf_r. reflexivity. }
    destruct lat2 as [|s3|a3]; [discriminate| |].
    { rewrite radians_Inf, sin_half_of_sub_Inf_l. reflexivity. }
    destruct lon1 as [|s2|a2]; [discriminate| |].
    { rewrite (radians_Inf s2), sin_half_of_sub_Inf_r.
      unfold squared at 2. cbn [mul]. now rewrite mul_NaN_r, add_NaN_r. }
    destruct lon2 as [|s4|a4]; [discriminate| |].
    { rewrite (radians_Inf s4), sin_half_of_sub_Inf_l.
      unfold squared at 2. cbn [mul]. now rewrite mul_NaN_r, add_NaN_r. }
    discriminate. }
  rewrite Ha. reflexivity.
Qed.

Lemma stepLength_infinite (p q : jsval) :
  isValidCoordinate p = true -> isValidCoordinate q = true ->
  hasInfinite p || hasInfinite q = true ->
  stepLength p q = NaN.
Proof.
  intros Hp Hq Hinf.
  destruct (valid_shape _ Hp) as [a [b [-> [Na Nb]]]].
  destruct (valid_shape _ Hq) as [c [d [-> [Nc Nd]]]].
  unfold stepLength, endsValid.
  cbn [firstTwo destructure2 nth fst snd]. rewrite Hp, Hq.
  cbn [andb as_number]. rewrite segment_haversine.
  apply haversine_infinite; trivial.
  unfold hasInfinite in Hinf. cbn [latOf lonOf as_number] in Hinf.
  destruct a, b, c, d; try discriminate; reflexivity.
Qed.

Lemma stepSum_infinite (coords : list jsval) :
  (2 <= List.length coords)%nat ->
  validCoords coords ->
  Exists (fun c => hasInfinite c = true) coords ->
  stepSum coords = NaN.
Proof.
  induction coords as [|p coords IH]; intros Hlen Hv Hex;
    [simpl in Hlen; lia|].
  destruct coords as [|q rest]; [simpl in Hlen; lia|].
  inversion Hv as [|? ? Hp Hv']; subst. inversion Hv' as [|? ? Hq _]; subst.
  change (stepSum (p :: q :: rest))
    with (add (stepLength p q) (stepSum (q :: rest))).
  destruct (hasInfinite p || hasInfinite q) eqn:Hpq.
  - now rewrite (stepLength_infinite _ _ Hp Hq Hpq).
  - apply orb_false_iff in Hpq as [Hip Hiq].
    inversion Hex as [? ? Hh | ? ? Hex1]; subst; [congruence|].
    inversion Hex1 as [? ? Hh | ? ? Hex2]; subst; [congruence|].
    rewrite IH; [apply add_NaN_r | | exact Hv' |].
    + destruct rest; [inversion Hex2 | simpl; lia].
    + now apply Exists_cons_tl.
Qed.

Lemma valid_iterable (coords : list jsval) :
  validCoords coords -> Forall (fun c => iterable c = true) coords.
Proof.
  intros Hv. eapply Forall_impl; [|exact Hv].
  intros c Hc. destruct (valid_shape _ Hc) as [a [b [-> _]]]. reflexivity.
Qed.

(** X8. A path of valid coordinates one of which has an infinite
    component (an accepted tuple such as [Infinity,1]) has the length
    ["NaN"]. *)
Theorem calculateLength_infinite_is_NaN (coords : list jsval) :
  (2 <= List.length coords)%nat ->
  validCoords coords ->
  Exists (fun c => hasInfinite c = true) coords ->
  calculateLength coords = Ok (JStr "NaN").
Proof.
  intros Hlen Hv Hex. unfold calculateLength.
  destruct (Nat.ltb_spec (List.length coords) 2); [lia|].
  rewrite (pathLength_iterable (valid_iterable Hv)). cbn [bind].
  now rewrite (stepSum_infinite Hlen Hv Hex).
Qed.

(* ------------------------------------------------------------------ *)
(** ** The records [processKMLData] produces *)

Lemma parseCoordinates_valid (v : jsval) (coords : list jsval) :
  parseCoordinates v = Ok coords -> validCoords coords.
Proof.
  unfold parseCoordinates, validCoords. destruct (truthy v); simpl.
  - destruct v; try discriminate. rewrite kept_tuples.
    intros [= <-]. apply Forall_forall. intros c Hc.
    apply in_map_iff in Hc as [t [<- Ht]].
    apply filter_In in Ht as [_ Ht]. now apply swapped_valid.
  - intros [= <-]. constructor.
Qed.

Lemma nameOr_truthy (placemark : jsval) (label : string) :
  label <> ""%string -> truthy (nameOr placemark label) = true.
Proof.
  intros Hl. unfold nameOr, js_or.
  destruct (truthy (opt_item0 (unwrap (member placemark "name")))) eqn:T;
    [exact T|].
  simpl. destruct (String.eqb_spec label ""); [contradiction | reflexivity].
Qed.

Lemma calculateLength_is_string (coords : list jsval) (v : jsval) :
  (2 <= List.length coords)%nat ->
  calculateLength coords = Ok v -> exists s, v = JStr s.
Proof.
  intros Hlen. unfold calculateLength.
  destruct (Nat.ltb_spec (List.length coords) 2); [lia|].
  destruct (pathLength coords); simpl; [|discriminate].
  intros [= <-]. eauto.
Qed.

Lemma pushes_nothing (acc : Acc) : pushes acc acc.
Proof. exists []. split; [now rewrite app_nil_r | constructor]. Qed.

Lemma pushes_one (counts counts' : Counts) (els : list Element)
  (e : Element) :
  recordShape e -> pushes (counts, els) (counts', els ++ [e]).
Proof.
  intros He. exists [e].
  split; [reflexivity | constructor; [exact He | constructor]].
Qed.

Lemma pushes_counts (counts counts' : Counts) (els : list Element) :
  pushes (counts, els) (counts', els).
Proof. exists []. split; [simpl; now rewrite app_nil_r | constructor]. Qed.

Lemma pushes_trans (a b c : Acc) : pushes a b -> pushes b c -> pushes a c.
Proof.
  intros [n1 [E1 F1]] [n2 [E2 F2]]. exists (n1 ++ n2). split.
  - rewrite E2, E1. now rewrite app_assoc.
  - apply Forall_app. now split.
Qed.

Lemma visitPoint_pushes placemark before after :
  visitPoint placemark before = Ok after -> pushes before after.
Proof.
  destruct before as [counts els]. unfold visitPoint.
  destruct (member placemark "Point") as [tag|]; simpl; [|discriminate].
  destruct (truthy tag); simpl.
  - destruct (item0 tag) as [first|]; simpl; [|discriminate].
    destruct (parseCoordinates _) as [coords|] eqn:Hc; simpl;
      [|discriminate].
    destruct (Nat.ltb_spec 0 (List.length coords)); intros [= <-].
    + apply pushes_one. split; [now apply nameOr_truthy|].
      left. repeat split. exists coords. repeat split; trivial.
      now apply (parseCoordinates_valid _ Hc).
    + apply pushes_counts.
  - intros [= <-]. apply pushes_counts.
Qed.

Lemma visitLineString_pushes placemark before after :
  visitLineString placemark before = Ok after -> pushes before after.
Proof.
  destruct before as [counts els]. unfold visitLineString.
  destruct (member placemark "LineString") as [tag|]; simpl;
    [|discriminate].
  destruct (truthy tag); simpl.
  - destruct (item0 tag) as [first|]; simpl; [|discriminate].
    destruct (parseCoordinates _) as [coords|] eqn:Hc; simpl;
      [|discriminate].
    destruct (Nat.ltb_spec 1 (List.length coords)).
    + destruct (calculateLength coords) as [v|] eqn:Hv; simpl;
        [|discriminate].
      intros [= <-]. apply pushes_one. split; [now apply nameOr_truthy|].
      right; left. split; [reflexivity|]. split.
      * destruct (@calculateLength_is_string coords v) as [s Hs];
          [lia | exact Hv |]. subst v. eexists; reflexivity.
      * exists coords. repeat split; trivial.
        now apply (parseCoordinates_valid _ Hc).
    + intros [= <-]. apply pushes_counts.
  - intros [= <-]. apply pushes_counts.
Qed.

Lemma visitPolygon_pushes placemark before after :
  visitPolygon placemark before = Ok after -> pushes before after.
Proof.
  destruct before as [counts els]. unfold visitPolygon.
  destruct (member placemark "Polygon") as [tag|]; simpl; [|discriminate].
  destruct (truthy tag); simpl.
  - destruct (item0 tag) as [first|]; simpl; [|discriminate].
    destruct (parseCoordinates _) as [coords|] eqn:Hc; simpl;
      [|discriminate].
    destruct (Nat.ltb_spec 2 (List.length coords)); intros [= <-].
    + apply pushes_one. split; [now apply nameOr_truthy|].
      right; right; left. repeat split. exists coords.
      repeat split; trivial. now apply (parseCoordinates_valid _ Hc).
    + apply pushes_counts.
  - intros [= <-]. apply pushes_counts.
Qed.

Lemma visitMulti_pushes placemark before after :
  visitMulti placemark before = Ok after -> pushes before after.
Proof.
  destruct before as [counts els]. unfold visitMulti.
  destruct (multiTag placemark) as [tag|]; simpl; [|discriminate].
  destruct (truthy tag); simpl.
  - destruct (array_map _ tag) as [parsed|] eqn:Hp; simpl; [|discriminate].
    set (multiCoords :=
           filter (fun coords => (1 <? List.length coords)%nat) parsed).
    destruct (Nat.ltb_spec 0 (List.length multiCoords)).
    + destruct (totalLength multiCoords) as [total|]; simpl;
        [|discriminate].
      intros [= <-]. apply pushes_one. split; [now apply nameOr_truthy|].
      right; right; right. split; [reflexivity|].
      split; [eexists; reflexivity|].
      exists multiCoords. split; [reflexivity|]. split.
      * intros E. rewrite E in *. simpl in *. lia.
      * apply Forall_forall. intros coords Hin.
        apply filter_In in Hin as [Hin Hlen].
        apply Nat.ltb_lt in Hlen. split; [|lia].
        destruct tag; try discriminate. unfold array_map in Hp.
        eapply mapM_Forall in Hp.
        -- rewrite Forall_forall in Hp. exact (Hp _ Hin).
        -- intros x y. apply parseCoordinates_valid.
    + intros [= <-]. apply pushes_counts.
  - intros [= <-]. apply pushes_counts.
Qed.

Lemma visit_pushes placemark before after :
  visit before placemark = Ok after -> pushes before after.
Proof.
  unfold visit.
  destruct (visitPoint placemark before) as [a1|] eqn:E1; simpl;
    [|discriminate].
  destruct (visitLineString placemark a1) as [a2|] eqn:E2; simpl;
    [|discriminate].
  destruct (visitPolygon placemark a2) as [a3|] eqn:E3; simpl;
    [|discriminate].
  intros E4.
  eapply pushes_trans; [exact (visitPoint_pushes _ _ E1)|].
  eapply pushes_trans; [exact (visitLineString_pushes _ _ E2)|].
  eapply pushes_trans; [exact (visitPolygon_pushes _ _ E3)|].
  exact (visitMulti_pushes _ _ E4).
Qed.

Lemma forEach_pushes placemarks before after :
  foldM visit placemarks before = Ok after -> pushes before after.
Proof.
  revert before. induction placemarks as [|pm pms IH]; intros before; simpl.
  - intros [= <-]. apply pushes_nothing.
  - destruct (visit before pm) as [mid|] eqn:E; simpl; [|discriminate].
    intros H. exact (pushes_trans (visit_pushes _ _ E) (IH _ H)).
Qed.

(** X9. Every record [processKMLData] produces has the shape of its
    kind: a name that is not empty; for a Point at least 1 valid coordinate
    and no length; for a LineString at least 2 and a length that is a
    string; for a Polygon at least 3 and no length; for a MultiLineString
    at least one sub-line, each of at least 2 valid coordinates, and a
    length that is a string. *)
Theorem processKMLData_record_shapes placemarks st st' :
  processKMLData placemarks st = Ok st' ->
  Forall recordShape (elements st').
Proof.
  unfold processKMLData.
  destruct (foldM visit placemarks (noCounts, [])) as [[counts els]|] eqn:E;
    simpl; [|discriminate].
  intros [= <-]. apply forEach_pushes in E as [new [E F]].
  simpl in *. now subst.
Qed.

(* ------------------------------------------------------------------ *)
(** ** Processing placemark after placemark *)

Lemma plusCounts_0_r (c : Counts) : plusCounts c noCounts = c.
Proof. destruct c. unfold plusCounts. simpl. f_equal; lia. Qed.

Lemma plusCounts_0_l (c : Counts) : plusCounts noCounts c = c.
Proof. now destruct c. Qed.

Lemma plusCounts_assoc (a b c : Counts) :
  plusCounts (plusCounts a b) c = plusCounts a (plusCounts b c).
Proof. unfold plusCounts. simpl. f_equal; lia. Qed.

Lemma plus_bump_Point (c : Counts) :
  plusCounts c (bump_Point noCounts) = bump_Point c.
Proof. unfold plusCounts, bump_Point. simpl. f_equal; lia. Qed.

Lemma plus_bump_LineString (c : Counts) :
  plusCounts c (bump_LineString noCounts) = bump_LineString c.
Proof. unfold plusCounts, bump_LineString. simpl. f_equal; lia. Qed.

Lemma plus_bump_Polygon (c : Counts) :
  plusCounts c (bump_Polygon noCounts) = bump_Polygon c.
Proof. unfold plusCounts, bump_Polygon. simpl. f_equal; lia. Qed.

Lemma plus_bump_MultiLineString (c : Counts) :
  plusCounts c (bump_MultiLineString noCounts) = bump_MultiLineString c.
Proof. unfold plusCounts, bump_MultiLineString. simpl. f_equal; lia. Qed.

Ltac shift_done :=
  unfold shifted; cbn [fst snd app];
  rewrite ?plusCounts_0_r, ?plus_bump_Point, ?plus_bump_LineString,
    ?plus_bump_Polygon, ?plus_bump_MultiLineString, ?app_nil_r;
  reflexivity.

Lemma visitPoint_shiftable placemark : shiftable (visitPoint placemark).
Proof.
  intros [counts els]. unfold visitPoint.
  destruct (member placemark "Point") as [tag|]; cbn [bind]; [|reflexivity].
  destruct (truthy tag); [|shift_done].
  destruct (item0 tag) as [first|]; cbn [bind]; [|reflexivity].
  destruct (parseCoordinates _) as [coords|]; cbn [bind]; [|reflexivity].
  destruct (0 <? List.length coords)%nat; shift_done.
Qed.

Lemma visitLineString_shiftable placemark :
  shiftable (visitLineString placemark).
Proof.
  intros [counts els]. unfold visitLineString.
  destruct (member placemark "LineString") as [tag|]; cbn [bind];
    [|reflexivity].
  destruct (truthy tag); [|shift_done].
  destruct (item0 tag) as [first|]; cbn [bind]; [|reflexivity].
  destruct (parseCoordinates _) as [coords|]; cbn [bind]; [|reflexivity].
  destruct (1 <? List.length coords)%nat; [|shift_done].
  destruct (calculateLength coords); cbn [bind]; [shift_done|reflexivity].
Qed.

Lemma visitPolygon_shiftable placemark : shiftable (visitPolygon placemark).
Proof.
  intros [counts els]. unfold visitPolygon.
  destruct (member placemark "Polygon") as [tag|]; cbn [bind];
    [|reflexivity].
  destruct (truthy tag); [|shift_done].
  destruct (item0 tag) as [first|]; cbn [bind]; [|reflexivity].
  destruct (parseCoordinates _) as [coords|]; cbn [bind]; [|reflexivity].
  destruct (2 <? List.length coords)%nat; shift_done.
Qed.

Lemma visitMulti_shiftable placemark : shiftable (visitMulti placemark).
Proof.
  intros [counts els]. unfold visitMulti.
  destruct (multiTag placemark) as [tag|]; cbn [bind]; [|reflexivity].
  destruct (truthy tag); [|shift_done].
  destruct (array_map _ tag) as [parsed|]; cbn [bind]; [|reflexivity].
  destruct (0 <? _)%nat; [|shift_done].
  destruct (totalLength _); cbn [bind]; [shift_done|reflexivity].
Qed.

Lemma shiftable_bind (f g : Acc -> result Acc) :
  shiftable f -> shiftable g -> shiftable (fun acc => bind (f acc) g).
Proof.
  intros Hf Hg [counts els]. rewrite (Hf (counts, els)).
  destruct (f (noCounts, [])) as [[c1 n1]|]; cbn [shifted bind fst snd];
    [|reflexivity].
  rewrite (Hg (plusCounts counts c1, els ++ n1)), (Hg (c1, n1)).
  destruct (g (noCounts, [])) as [[c2 n2]|]; cbn [shifted fst snd];
    [|reflexivity].
  now rewrite plusCounts_assoc, app_assoc.
Qed.

Lemma visit_shiftable placemark : shiftable (fun acc => visit acc placemark).
Proof.
  unfold visit.
  apply (shiftable_bind (visitPoint_shiftable placemark)).
  apply (shiftable_bind (visitLineString_shiftable placemark)).
  apply (shiftable_bind (visitPolygon_shiftable placemark)).
  apply visitMulti_shiftable.
Qed.

Lemma forEach_shiftable placemarks :
  shiftable (foldM visit placemarks).
Proof.
  induction placemarks as [|pm pms IH].
  - intros [counts els]. cbn [foldM shifted fst snd].
    now rewrite plusCounts_0_r, app_nil_r.
  - cbn [foldM].
    exact (shiftable_bind (visit_shiftable pm) IH).
Qed.

Lemma foldM_app {A S} (f : S -> A -> result S) (l1 l2 : list A) (s : S) :
  foldM f (l1 ++ l2) s = bind (foldM f l1 s) (foldM f l2).
Proof.
  revert s. induction l1 as [|x l1 IH]; intros s; [reflexivity|].
  simpl. destruct (f s x); simpl; [apply IH | reflexivity].
Qed.

(** X10. Placemarks are processed one after the other, each on its own:
    processing two lists put end to end gives the records of the first
    followed by the records of the second, and counts that are the sums of
    theirs. *)
Theorem processKMLData_append (l1 l2 : list jsval) (st s1 s2 : State) :
  processKMLData l1 st = Ok s1 ->
  processKMLData l2 st = Ok s2 ->
  exists c1 c2,
    summary s1 = Some c1 /\ summary s2 = Some c2
    /\ processKMLData (l1 ++ l2) st
       = Ok (mkState (elements s1 ++ elements s2)
               (Some (plusCounts c1 c2)) false false (console st)).
Proof.
  unfold processKMLData. rewrite foldM_app.
  destruct (foldM visit l1 (noCounts, [])) as [[c1 e1]|]; cbn [bind];
    [|discriminate].
  intros [= <-].
  rewrite (forEach_shiftable l2 (c1, e1)).
  destruct (foldM visit l2 (noCounts, [])) as [[c2 e2]|]; cbn [bind];
    [|discriminate].
  intros [= <-]. exists c1, c2. cbn [summary elements shifted fst snd].
  auto.
Qed.

(* ------------------------------------------------------------------ *)
(** ** When processing fails *)

Lemma member_ok (v : jsval) (k : string) (t : jsval) :
  member v k = Ok t -> nullish v = false /\ t = tagOf k v.
Proof.
  unfold tagOf. destruct v; simpl; intros H; try discriminate;
    injection H as <-; auto.
Qed.

Lemma item0_ok (v first : jsval) :
  item0 v = Ok first -> first = unwrap (item0 v).
Proof. intros H. now rewrite H. Qed.

Lemma falsy_item0 (t : jsval) :
  truthy t = false -> unwrap (item0 t) = JUndefined.
Proof.
  destruct t as [| |b|x|s|items|props]; simpl; intros H; try reflexivity;
    try discriminate.
  destruct s; [reflexivity | discriminate].
Qed.

Lemma parseCoordinates_ok_readable (v : jsval) (coords : list jsval) :
  parseCoordinates v = Ok coords -> readable v.
Proof.
  unfold parseCoordinates, readable. destruct (truthy v); simpl.
  - destruct v; try discriminate. eauto.
  - auto.
Qed.

Lemma undefined_readable : readable JUndefined.
Proof. now left. Qed.

Lemma visitPoint_ok_inv placemark acc acc' :
  visitPoint placemark acc = Ok acc' ->
  nullish placemark = false /\ readable (pointPath placemark).
Proof.
  destruct acc as [counts els]. unfold visitPoint, pointPath.
  destruct (member placemark "Point") as [tag|] eqn:Hm; cbn [bind];
    [|discriminate].
  apply member_ok in Hm as [Hn ->]. intros H. split; [exact Hn|].
  destruct (truthy (tagOf "Point" placemark)) eqn:Tt.
  - destruct (item0 (tagOf "Point" placemark)) as [first|] eqn:Hi;
      cbn [bind] in H; [|discriminate].
    cbn [unwrap].
    destruct (parseCoordinates _) as [coords|] eqn:Hc; [|discriminate].
    exact (parseCoordinates_ok_readable _ Hc).
  - rewrite (falsy_item0 _ Tt). apply undefined_readable.
Qed.

Lemma visitLineString_ok_inv placemark acc acc' :
  visitLineString placemark acc = Ok acc' ->
  readable (linePath placemark).
Proof.
  destruct acc as [counts els]. unfold visitLineString, linePath.
  destruct (member placemark "LineString") as [tag|] eqn:Hm; cbn [bind];
    [|discriminate].
  apply member_ok in Hm as [Hn ->]. intros H.
  destruct (truthy (tagOf "LineString" placemark)) eqn:Tt.
  - destruct (item0 (tagOf "LineString" placemark)) as [first|] eqn:Hi;
      cbn [bind] in H; [|discriminate].
    cbn [unwrap].
    destruct (parseCoordinates _) as [coords|] eqn:Hc; [|discriminate].
    exact (parseCoordinates_ok_readable _ Hc).
  - rewrite (falsy_item0 _ Tt). apply undefined_readable.
Qed.

Lemma visitPolygon_ok_inv placemark acc acc' :
  visitPolygon placemark acc = Ok acc' ->
  readable (ringPath placemark).
Proof.
  destruct acc as [counts els]. unfold visitPolygon, ringPath.
  destruct (member placemark "Polygon") as [tag|] eqn:Hm; cbn [bind];
    [|discriminate].
  apply member_ok in Hm as [Hn ->]. intros H.
  destruct (truthy (tagOf "Polygon" placemark)) eqn:Tt.
  - destruct (item0 (tagOf "Polygon" placemark)) as [first|] eqn:Hi;
      cbn [bind] in H; [|discriminate].
    cbn [unwrap].
    destruct (parseCoordinates _) as [coords|] eqn:Hc; [|discriminate].
    exact (parseCoordinates_ok_readable _ Hc).
  - rewrite (falsy_item0 _ Tt). apply undefined_readable.
Qed.

Lemma mapM_ok_inv {A B} (f : A -> result B) (l : list A) (ys : list B) :
  mapM f l = Ok ys -> Forall (fun x => exists y, f x = Ok y) l.
Proof.
  revert ys. induction l as [|x l IH]; intros ys; simpl; [constructor|].
  destruct (f x) as [y|] eqn:Ex; simpl; [|discriminate].
  destruct (mapM f l) as [ys'|]; simpl; [|discriminate].
  intros _. constructor; [eauto | now apply (IH ys')].
Qed.

Lemma visitMulti_ok_inv placemark acc acc' :
  visitMulti placemark acc = Ok acc' ->
  hasMultiTag placemark = true ->
  exists lines,
    unwrap (multiTag placemark) = JArr lines
    /\ Forall (fun line => readable (subLinePath line)) lines.
Proof.
  destruct acc as [counts els]. unfold visitMulti, hasMultiTag.
  destruct (multiTag placemark) as [tag|]; cbn [bind unwrap];
    [|discriminate].
  intros H Tt. rewrite Tt in H.
  destruct (array_map _ tag) as [parsed|] eqn:Hp; [|discriminate].
  destruct tag; try discriminate. exists items. split; [reflexivity|].
  unfold array_map in Hp. apply mapM_ok_inv in Hp.
  eapply Forall_impl; [|exact Hp].
  intros line [y Hy]. exact (parseCoordinates_ok_readable _ Hy).
Qed.

Lemma visit_ok_inv placemark acc acc' :
  visit acc placemark = Ok acc' -> wellFormed placemark.
Proof.
  unfold visit.
  destruct (visitPoint placemark acc) as [a1|] eqn:E1; cbn [bind];
    [|discriminate].
  destruct (visitLineString placemark a1) as [a2|] eqn:E2; cbn [bind];
    [|discriminate].
  destruct (visitPolygon placemark a2) as [a3|] eqn:E3; cbn [bind];
    [|discriminate].
  intros E4.
  destruct (visitPoint_ok_inv _ _ E1) as [Hn Hp].
  repeat split; trivial.
  - exact (visitLineString_ok_inv _ _ E2).
  - exact (visitPolygon_ok_inv _ _ E3).
  - exact (visitMulti_ok_inv _ _ E4).
Qed.

Lemma forEach_ok_inv placemarks acc acc' :
  foldM visit placemarks acc = Ok acc' -> Forall wellFormed placemarks.
Proof.
  revert acc. induction placemarks as [|pm pms IH]; intros acc; simpl;
    [constructor|].
  destruct (visit acc pm) as [mid|] eqn:E; simpl; [|discriminate].
  intros H. constructor; [exact (visit_ok_inv _ _ E) | exact (IH _ H)].
Qed.

(** X11. [processKMLData] returns exactly when every placemark is
    well-formed; otherwise -- an entry that is [null] or [undefined], a
    coordinate text that is not a string (an element carrying attributes),
    a MultiGeometry whose LineString is not an array -- the whole pass
    throws a TypeError and sets no state. *)
Theorem processKMLData_returns_iff placemarks st :
  (exists st', processKMLData placemarks st = Ok st')
  <-> Forall wellFormed placemarks.
Proof.
  split.
  - intros [st' H]. unfold processKMLData in H.
    destruct (foldM visit placemarks (noCounts, [])) as [acc|] eqn:E;
      [|discriminate].
    exact (forEach_ok_inv _ _ E).
  - apply processKMLData_returns.
Qed.

(** X12. A successful upload replaces what was loaded before: the
    records, the summary and the display flags (both off) it leaves do not
    depend on the state it starts from, so that uploading the same text
    again changes nothing. *)
Theorem handleFileUpload_replaces (text : string) (st1 st2 s1 : State) :
  truthy (fst (parseString text)) = false ->
  handleFileUpload (Some text) st1 = Ok s1 ->
  handleFileUpload (Some text) st2
  = Ok (mkState (elements s1) (summary s1) false false (console st2))
  /\ handleFileUpload (Some text) s1 = Ok s1.
Proof.
  unfold handleFileUpload, reader_onload.
  destruct (parseString text) as [err result]. cbn [fst].
  intros He. unfold onParsed. rewrite He.
  destruct (placemarksOf result); try discriminate.
  unfold processKMLData.
  destruct (foldM visit items (noCounts, [])) as [[counts els]|];
    cbn [bind]; [|discriminate].
  intros [= <-]. split; reflexivity.
Qed.

(* ------------------------------------------------------------------ *)
(** ** The view *)

(** A list of coordinates is not itself a coordinate: its first entry is a
    pair, not a number. *)
Lemma coordinate_list_invalid (coords : list jsval) :
  validCoords coords -> isValidCoordinate (JArr coords) = false.
Proof.
  intros Hv. destruct coords as [|c0 coords]; [reflexivity|].
  inversion Hv as [|? ? H0 _]; subst.
  destruct (valid_shape _ H0) as [a [b [-> _]]].
  unfold isValidCoordinate. cbn [nth]. apply andb_false_r.
Qed.

Lemma every_valid (coords : list jsval) :
  validCoords coords ->
  array_every isValidCoordinate (JArr coords) = Ok true.
Proof.
  intros Hv. unfold array_every. f_equal.
  apply forallb_forall. now apply Forall_forall.
Qed.

Lemma renderElement_shape (index : nat) (e : Element) :
  recordShape e -> renderElement index e = Ok (overlayOf index e).
Proof.
  intros [_ H]. unfold renderElement, overlayOf.
  destruct H as [[Ht [_ [coords [Hc [Hv _]]]]]
               | [[Ht [_ [coords [Hc [Hv _]]]]]
               | [[Ht [_ [coords [Hc [Hv _]]]]]
               | [Ht _]]]];
    rewrite Ht; cbn [String.eqb Ascii.eqb Bool.eqb andb bind];
    rewrite ?Hc, ?(coordinate_list_invalid Hv), ?(every_valid Hv);
    reflexivity.
Qed.

(** X13. What the map draws of a record of the shape [processKMLData]
    makes: a blue line, with its name and length in the popup, for a
    LineString; a green surface for a Polygon; nothing for a
    MultiLineString, for which the callback has no case; and nothing for a
    Point either, whose [coords] is a list of coordinates and so fails the
    test [isValidCoordinate(el.coords)]. It never throws. *)
Theorem renderElement_record (index : nat) (e : Element) :
  recordShape e -> renderElement index e = Ok (overlayOf index e).
Proof. apply renderElement_shape. Qed.

Lemma renderElements_from (start : nat) (els : list Element) :
  Forall recordShape els ->
  mapM (fun entry => renderElement (fst entry) (snd entry))
       (combine (seq start (List.length els)) els)
  = Ok (overlaysFrom start els).
Proof.
  intros H. revert start. unfold overlaysFrom.
  induction H as [|e els He _ IH]; intros start; [reflexivity|].
  cbn [List.length seq combine mapM map fst snd].
  rewrite (renderElement_shape start He), IH. reflexivity.
Qed.

Lemma processKMLData_consistent placemarks st st' :
  processKMLData placemarks st = Ok st' -> consistent st'.
Proof.
  unfold processKMLData.
  destruct (foldM visit placemarks (noCounts, [])) as [[counts els]|] eqn:E;
    cbn [bind]; [|discriminate].
  intros [= <-]. apply forEach_pushes in E as [new [E F]].
  cbn [snd app] in E. subst els.
  split; [exact F|]. split; [now left | discriminate].
Qed.

Lemma handleFileUpload_consistent file st st' :
  consistent st -> handleFileUpload file st = Ok st' -> consistent st'.
Proof.
  intros Hc. destruct file as [text|]; cbn [handleFileUpload].
  - unfold reader_onload. destruct (parseString text) as [err result].
    unfold onParsed. destruct (truthy err).
    + intros [= <-]. exact Hc.
    + destruct (placemarksOf result); try discriminate.
      apply processKMLData_consistent.
  - now intros [= <-].
Qed.

Lemma handle_consistent st ev st' :
  consistent st -> handle st ev = Ok st' -> consistent st'.
Proof.
  intros Hc. destruct ev as [file| |]; cbn [handle].
  - now apply handleFileUpload_consistent.
  - intros [= <-]. destruct Hc as [He [_ Hs]].
    split; [exact He|]. split; [now right | exact Hs].
  - intros [= <-]. destruct Hc as [He [_ Hs]].
    split; [exact He|]. split; [now left | exact Hs].
Qed.

Lemma reachable_inv st : reachable st -> consistent st.
Proof.
  induction 1 as [|st ev st' _ IH H].
  - split; [constructor|]. split; [now left | reflexivity].
  - exact (handle_consistent _ IH H).
Qed.

(** X14. Whatever files are uploaded and buttons clicked, from the first
    render on: every record of the state has the shape of its kind, the
    two display flags are never both set, and there is no record as long
    as there is no summary. *)
Theorem reachable_consistent st :
  reachable st ->
  Forall recordShape (elements st)
  /\ (showSummary st = false \/ showDetailed st = false)
  /\ (summary st = None -> elements st = []).
Proof. apply reachable_inv. Qed.

Lemma render_shape st :
  Forall recordShape (elements st) ->
  render st
  = Ok (mkView (renderTable st)
          (if showDetailed st && (0 <? List.length (elements st))%nat
           then Some (overlaysOf (elements st)) else None)).
Proof.
  intros H. unfold render, renderMap, renderElements.
  destruct (showDetailed st && (0 <? List.length (elements st))%nat);
    [|reflexivity].
  now rewrite (renderElements_from 0 H).
Qed.

(** X15. In every state the component goes through, rendering does not
    throw; it shows the table or the map, never both; and a map that is
    shown has one entry per record, each drawn as its kind requires, and
    at least one record. *)
Theorem render_reachable st :
  reachable st ->
  exists view,
    render st = Ok view
    /\ (tableView view = None \/ mapView view = None)
    /\ (forall drawn,
          mapView view = Some drawn ->
          drawn = overlaysOf (elements st) /\ elements st <> []).
Proof.
  intros Hr. destruct (reachable_inv Hr) as [He [Hf _]].
  eexists. split; [exact (render_shape _ He)|]. cbn [tableView mapView].
  split.
  - unfold renderTable. destruct Hf as [-> | ->]; [now left | now right].
  - intros drawn. destruct (showDetailed st); cbn [andb]; [|discriminate].
    destruct (elements st); cbn [List.length Nat.ltb Nat.leb];
      [discriminate|].
    intros [= <-]. split; [reflexivity | discriminate].
Qed.

Lemma row_is_rowOf (kind : string) (n : nat) :
  (if (0 <? n)%nat then Some (kind, n) else None) = rowOf kind n.
Proof. now destruct n. Qed.

(** X16. Once a placemark list is processed and Summary is clicked, the
    table has, in the order Point, LineString, Polygon, MultiLineString,
    a row for each kind of which at least one placemark carries the tag,
    with the number of those placemarks -- whether or not a record was
    made of them --, and no row for the other kinds. *)
Theorem renderTable_rows placemarks st st' :
  processKMLData placemarks st = Ok st' ->
  renderTable (clickSummary st')
  = Some [rowOf "Point" (countIf (hasTag "Point") placemarks);
          rowOf "LineString" (countIf (hasTag "LineString") placemarks);
          rowOf "Polygon" (countIf (hasTag "Polygon") placemarks);
          rowOf "MultiLineString" (countIf hasMultiTag placemarks)].
Proof.
  intros H. apply processKMLData_tally in H as [counts [Hs [Hc _]]].
  unfold renderTable, clickSummary. cbn [showSummary summary]. rewrite Hs.
  cbn [fst snd] in Hc. destruct Hc as [Hp [Hl [Hg Hm]]].
  cbn [Nat.add] in Hp, Hl, Hg, Hm.
  unfold renderRows, Object_entries. cbn [map snd].
  rewrite !row_is_rowOf, Hp, Hl, Hg, Hm. reflexivity.
Qed.

(** X17. When the text parses, an upload completes exactly when the
    placemark entry of the document is an array all of whose placemarks
    are well-formed; otherwise the callback throws, uncaught, and no state
    is set. *)
Theorem handleFileUpload_returns_iff (text : string) (st : State) :
  truthy (fst (parseString text)) = false ->
  (exists st', handleFileUpload (Some text) st = Ok st')
  <-> (exists placemarks,
         placemarksOf (snd (parseString text)) = JArr placemarks
         /\ Forall wellFormed placemarks).
Proof.
  unfold handleFileUpload, reader_onload.
  destruct (parseString text) as [err result]. cbn [fst snd].
  intros He. unfold onParsed. rewrite He. split.
  - intros [st' H]. destruct (placemarksOf result); try discriminate.
    exists items. split; [reflexivity|].
    unfold processKMLData in H.
    destruct (foldM visit items (noCounts, [])) as [acc|] eqn:E;
      [|discriminate].
    exact (forEach_ok_inv _ _ E).
  - intros [placemarks [-> Hw]]. now apply processKMLData_returns.
Qed.

(* ------------------------------------------------------------------ *)
(** ** Counting and gating, kind by kind *)

Lemma multiTag_is_lineStrings placemark :
  nullish placemark = false ->
  hasTag "MultiGeometry" placemark = true ->
  unwrap (multiTag placemark) = lineStringsOf placemark.
Proof.
  intros Hn Ht. unfold multiTag, lineStringsOf, hasTag in *.
  rewrite (@member_defined placemark "MultiGeometry" Hn). cbn [bind].
  rewrite Ht, (@item0_defined _ Ht). reflexivity.
Qed.

Lemma hasMultiTag_carries placemark :
  nullish placemark = false ->
  hasMultiTag placemark = carriesMulti placemark.
Proof.
  intros Hn. unfold carriesMulti.
  destruct (hasTag "MultiGeometry" placemark) eqn:Ht; cbn [andb].
  - unfold hasMultiTag.
    now rewrite (@multiTag_is_lineStrings placemark Hn Ht).
  - unfold hasMultiTag, multiTag, hasTag in *.
    rewrite (@member_defined placemark "MultiGeometry" Hn). cbn [bind].
    now rewrite Ht.
Qed.

Lemma mapM_parsedAt (lines : list jsval) :
  Forall (fun line => readable (subLinePath line)) lines ->
  mapM (fun line => parseCoordinates (subLinePath line)) lines
  = Ok (map (fun line => parsedAt (subLinePath line)) lines).
Proof.
  induction 1 as [|line lines Hr _ IH]; [reflexivity|].
  cbn [mapM map]. rewrite IH.
  destruct (parseCoordinates_readable Hr) as [coords Hc].
  assert (Hp : parsedAt (subLinePath line) = coords)
    by (unfold parsedAt; now rewrite Hc).
  rewrite Hp, Hc. reflexivity.
Qed.

Lemma filter_two (parsed : list (list jsval)) :
  filter (fun coords => (1 <? List.length coords)%nat) parsed
  = filter (fun coords => (2 <=? List.length coords)%nat) parsed.
Proof. apply filter_ext. intros coords. reflexivity. Qed.

Lemma yields_multi placemark :
  wellFormed placemark ->
  yieldsMultiLineString placemark = yieldsMulti placemark.
Proof.
  intros [Hn [_ [_ [_ Hm]]]]. unfold yieldsMultiLineString, yieldsMulti.
  rewrite (@hasMultiTag_carries placemark Hn).
  destruct (carriesMulti placemark) eqn:Hc; [|reflexivity]. cbn [andb].
  rewrite <- (@hasMultiTag_carries placemark Hn) in Hc.
  destruct (Hm Hc) as [lines [Hl Hr]].
  rewrite (@hasMultiTag_carries placemark Hn) in Hc.
  unfold carriesMulti in Hc. apply andb_prop in Hc as [Ht _].
  unfold subLines, longSubLines.
  rewrite <- (@multiTag_is_lineStrings placemark Hn Ht), Hl.
  cbn [array_map].
  now rewrite (mapM_parsedAt Hr), filter_two.
Qed.

Lemma countIf_ext {A} (P : A -> Prop) (f g : A -> bool) (l : list A) :
  (forall x, P x -> f x = g x) -> Forall P l -> countIf f l = countIf g l.
Proof.
  intros Hfg. induction 1 as [|x l Hx _ IH]; [reflexivity|].
  now rewrite !countIf_cons, IH, (Hfg x Hx).
Qed.

(** C3. After a placemark list is processed, each count of the summary is
    the number of placemarks on which the tag of that kind is present --
    whatever their coordinates parse to --, whereas the number of records
    of a kind is the number of placemarks on which the tag is present and
    the parsed coordinates are enough: 1 for a Point, 2 for a LineString, 3
    for a Polygon, 1 sub-line of at least 2 points for a MultiLineString.
    The four kinds are counted and gated independently of each other. The
    presence of each tag and the coordinates of each kind are read off the
    placemark by the definitions above, not by the code's branches. *)
Theorem processKMLData_counts_and_gates placemarks st st' :
  processKMLData placemarks st = Ok st' ->
  exists counts,
    summary st' = Some counts
    /\ (Point counts = countIf (hasTag "Point") placemarks
        /\ LineString counts = countIf (hasTag "LineString") placemarks
        /\ Polygon counts = countIf (hasTag "Polygon") placemarks
        /\ MultiLineString counts = countIf carriesMulti placemarks)
    /\ (countIf (ofType "Point") (elements st')
        = countIf yieldsPoint placemarks
        /\ countIf (ofType "LineString") (elements st')
          = countIf yieldsLineString placemarks
        /\ countIf (ofType "Polygon") (elements st')
          = countIf yieldsPolygon placemarks
        /\ countIf (ofType "MultiLineString") (elements st')
          = countIf yieldsMulti placemarks).
Proof.
  intros H.
  assert (Hw : Forall wellFormed placemarks).
  { unfold processKMLData in H.
    destruct (foldM visit placemarks (noCounts, [])) as [acc|] eqn:E;
      [|discriminate].
    exact (forEach_ok_inv _ _ E). }
  apply processKMLData_tally in H as [counts [Hs [Hc He]]].
  exists counts. split; [exact Hs|].
  cbn [fst snd noCounts Point LineString Polygon MultiLineString Nat.add]
    in Hc, He.
  destruct Hc as [Hc1 [Hc2 [Hc3 Hc4]]]. destruct He as [He1 [He2 [He3 He4]]].
  change (countIf (ofType "Point") []) with 0%nat in He1.
  change (countIf (ofType "LineString") []) with 0%nat in He2.
  change (countIf (ofType "Polygon") []) with 0%nat in He3.
  change (countIf (ofType "MultiLineString") []) with 0%nat in He4.
  cbn [Nat.add] in He1, He2, He3, He4.
  split; [split; [exact Hc1 | split; [exact Hc2 | split; [exact Hc3|]]]
         | split; [exact He1 | split; [exact He2 | split; [exact He3|]]]].
  - rewrite Hc4. apply (@countIf_ext _ wellFormed); [|exact Hw].
    intros pm [Hn _]. exact (@hasMultiTag_carries pm Hn).
  - rewrite He4. apply (@countIf_ext _ wellFormed); [|exact Hw].
    intros pm Hpm. exact (@yields_multi pm Hpm).
Qed.

End Viewer.

(* ================================================================== *)
(** * Closed instances *)











(** C2, refuted as stated: the tuple [Infinity,1] is accepted although
    its longitude does not read as a finite number. *)
Lemma infinite_longitude_is_accepted :
  parseCoordinates (JStr "Infinity,1")
  = Ok [JArr [JNum (parseFloat_string "1"); JNum (Inf false)]]
  /\ accepted "Infinity,1" = true
  /\ bothFinite "Infinity,1" = false.
Proof. repeat split. Qed.

(** C3 at the three sample placemarks: two Point tags, of which the empty
    one gives no record; one LineString; no Polygon; one MultiGeometry. *)
Lemma processKMLData_counts_and_gates_witness :
  exists st',
    processKMLData exponential_sample samplePlacemarks emptyState = Ok st'
    /\ exists counts,
         summary st' = Some counts
         /\ (Point counts = 2%nat /\ LineString counts = 1%nat
             /\ Polygon counts = 0%nat /\ MultiLineString counts = 1%nat)
         /\ (countIf (ofType "Point") (elements st') = 1%nat
             /\ countIf (ofType "LineString") (elements st') = 1%nat
             /\ countIf (ofType "Polygon") (elements st') = 0%nat
             /\ countIf (ofType "MultiLineString") (elements st') = 1%nat).
Proof.
  eexists. split; [reflexivity|].
  apply (@processKMLData_counts_and_gates exponential_sample
           samplePlacemarks emptyState).
  reflexivity.
Defined.

(** The sample, in figures: the empty Point is counted and yields no
    record; the second placemark counts for two kinds. *)
Example sample_counts :
  exists st',
    processKMLData exponential_sample samplePlacemarks emptyState = Ok st'
    /\ summary st' = Some (mkCounts 2 1 0 1)
    /\ map el_type (elements st')
       = ["Point"; "LineString"; "MultiLineString"]%string
    /\ map el_name (elements st')
       = [JStr "Point"; JStr "both"; JStr "MultiLineString"].
Proof. eexists. repeat split. Qed.

(** C4 at a text the sample parser rejects, after an earlier upload. *)
Lemma handleFileUpload_parse_failure_witness :
  truthy (fst (parser_sample "<kml>")) = true
  /\ handleFileUpload exponential_sample parser_sample (Some "<kml>"%string)
       loadedState
     = Ok (mkState (elements loadedState) (summary loadedState)
             (showSummary loadedState) (showDetailed loadedState)
             (console loadedState ++ [fst (parser_sample "<kml>")])).
Proof.
  split; [reflexivity|].
  apply (@handleFileUpload_parse_failure exponential_sample parser_sample
           "<kml>" loadedState).
  reflexivity.
Defined.


(** C6, refuted as stated: on the empty list and on a list of one
    coordinate the result is not the string ["0.00"]. *)
Lemma degenerate_length_is_not_formatted :
  calculateLength exponential_sample [] <> Ok (JStr "0.00")
  /\ calculateLength exponential_sample [JArr [JNum (of_Z 1); JNum (of_Z 2)]]
     <> Ok (JStr "0.00").
Proof. split; discriminate. Qed.

(** C6 (as amended) at a list of one coordinate. *)
Lemma calculateLength_degenerate_witness :
  (List.length [JArr [JNum (of_Z 1); JNum (of_Z 2)]] < 2)%nat
  /\ calculateLength exponential_sample [JArr [JNum (of_Z 1); JNum (of_Z 2)]]
     = Ok (JNum (of_Z 0)).
Proof.
  split; [simpl; lia|].
  apply (@calculateLength_degenerate exponential_sample
           [JArr [JNum (of_Z 1); JNum (of_Z 2)]]).
  simpl; lia.
Defined.

(** C8 at a document without placemarks, after an earlier upload. *)
Lemma handleFileUpload_no_placemark_witness :
  truthy (fst (parser_sample "<kml><Document/></kml>")) = false
  /\ placemarkPath (snd (parser_sample "<kml><Document/></kml>"))
     = JUndefined
  /\ placemarksOf (snd (parser_sample "<kml><Document/></kml>")) = JArr []
  /\ handleFileUpload exponential_sample parser_sample
       (Some "<kml><Document/></kml>"%string) loadedState
     = Ok (mkState [] (Some (mkCounts 0 0 0 0)) false false
             (console loadedState)).
Proof.
  split; [reflexivity|]. split; [reflexivity|].
  apply (@handleFileUpload_no_placemark exponential_sample parser_sample
           "<kml><Document/></kml>" loadedState);
    reflexivity.
Defined.

(** C10 at the three sample placemarks. *)
Lemma processKMLData_counts_bound_records_witness :
  exists st',
    processKMLData exponential_sample samplePlacemarks emptyState = Ok st'
    /\ exists counts,
         summary st' = Some counts
         /\ map fst (Object_entries counts)
            = ["Point"; "LineString"; "Polygon"; "MultiLineString"]%string
         /\ (countIf (ofType "Point") (elements st') <= Point counts)%nat
         /\ (countIf (ofType "LineString") (elements st')
             <= LineString counts)%nat
         /\ (countIf (ofType "Polygon") (elements st')
             <= Polygon counts)%nat
         /\ (countIf (ofType "MultiLineString") (elements st')
             <= MultiLineString counts)%nat.
Proof.
  eexists. split; [reflexivity|].
  apply (@processKMLData_counts_bound_records exponential_sample
           samplePlacemarks emptyState).
  reflexivity.
Defined.

(** [PI] to six decimals, from Machin's formula. *)
Lemma PI_six_decimals : (3141592 / 1000000 < PI < 3141593 / 1000000)%R.
Proof.
  pose proof (PI_2_3_7_ineq 3) as [Hlo Hhi].
  unfold sum_f_R0, tg_alt, PI_2_3_7_tg, Ratan_seq in Hlo, Hhi.
  simpl in Hlo, Hhi. lra.
Qed.

(** The known value of the specification: one degree of longitude on the
    equator measures 111.19 km. *)
Example one_degree_of_longitude :
  calculateLength exponential_sample oneDegree = Ok (JStr "111.19").
Proof.
  pose proof PI_six_decimals as Hpi.
  unfold calculateLength. cbn [List.length oneDegree Nat.ltb Nat.leb].
  rewrite pathLength_pairs by (repeat constructor; unfold isPair; eauto).
  cbn [bind]. do 2 f_equal.
  unfold oneDegree. cbn [sumOfSegments]. rewrite add_0_r.
  unfold contribution.
  change (isValidCoordinate (JArr [JNum (of_Z 0); JNum (of_Z 0)])) with true.
  change (isValidCoordinate (JArr [JNum (of_Z 0); JNum (of_Z 1)])) with true.
  cbn [andb latOf lonOf as_number]. unfold of_Z.
  rewrite equator_segment by (try reflexivity; lra).
  rewrite (@toFixed2_value exponential_sample _ 11119); [reflexivity| |]; lra.
Qed.

(** A Point at [1,2,0]: one record named "Point" whose only coordinate is
    (2, 1), the altitude being ignored, and a summary that counts one
    Point. *)
Example point_scenario :
  exists st',
    processKMLData exponential_sample [pointPlacemark] emptyState = Ok st'
    /\ summary st' = Some (mkCounts 1 0 0 0)
    /\ elements st'
       = [mkElement "Point"
            (JArr [JArr [JNum (parseFloat_string "2");
                         JNum (parseFloat_string "1")]])
            None (JStr "Point")].
Proof. eexists. repeat split. Qed.

(** Three valid tuples and one without a comma: the three are kept, in
    their order. *)
Example malformed_tuple_scenario :
  parseCoordinates (JStr "  10,20 30,40,5
     oops 50,60 ")
  = Ok [swapped "10,20"; swapped "30,40,5"; swapped "50,60"].
Proof. reflexivity. Qed.

(* ------------------------------------------------------------------ *)
(** ** The further properties, at the samples *)

(** X1 at two tuples separated by a blank. *)
Lemma parseCoordinates_append_witness :
  is_ws " " = true
  /\ parseCoordinates (JStr ("1,2" ++ String " " "3,4")%string)
     = Ok (parsedAt (JStr "1,2") ++ parsedAt (JStr "3,4")).
Proof.
  split; [reflexivity|].
  apply (@parseCoordinates_append "1,2" "3,4" " "). reflexivity.
Defined.

(** X2 at the tuple [1,2,3]. *)
Lemma parseTuple_ignores_altitude_witness :
  comma_free "1" = true
  /\ comma_free "2" = true
  /\ parseTuple ("1" ++ String "," ("2" ++ String "," "3"))%string
     = parseTuple ("1" ++ String "," "2")%string.
Proof.
  split; [reflexivity|]. split; [reflexivity|].
  apply (@parseTuple_ignores_altitude "1" "2" "3"); reflexivity.
Defined.

(** X8 at what the text ["Infinity,1 0,0"] parses to. *)
Lemma calculateLength_infinite_is_NaN_witness :
  (2 <= List.length [JArr [JNum (Fin 1); JNum (Inf false)];
                     JArr [JNum (Fin 0); JNum (Fin 0)]])%nat
  /\ validCoords [JArr [JNum (Fin 1); JNum (Inf false)];
                  JArr [JNum (Fin 0); JNum (Fin 0)]]
  /\ Exists (fun c => hasInfinite c = true)
       [JArr [JNum (Fin 1); JNum (Inf false)];
        JArr [JNum (Fin 0); JNum (Fin 0)]]
  /\ calculateLength exponential_sample
       [JArr [JNum (Fin 1); JNum (Inf false)];
        JArr [JNum (Fin 0); JNum (Fin 0)]]
     = Ok (JStr "NaN").
Proof.
  assert (Hl : (2 <= List.length [JArr [JNum (Fin 1); JNum (Inf false)];
                                  JArr [JNum (Fin 0); JNum (Fin 0)]])%nat)
    by (simpl; lia).
  assert (Hv : validCoords [JArr [JNum (Fin 1); JNum (Inf false)];
                            JArr [JNum (Fin 0); JNum (Fin 0)]]).
  { unfold validCoords.
    repeat (apply Forall_cons; [reflexivity|]). apply Forall_nil. }
  assert (He : Exists (fun c => hasInfinite c = true)
                 [JArr [JNum (Fin 1); JNum (Inf false)];
                  JArr [JNum (Fin 0); JNum (Fin 0)]])
    by (apply Exists_cons_hd; reflexivity).
  split; [exact Hl|]. split; [exact Hv|]. split; [exact He|].
  exact (@calculateLength_infinite_is_NaN exponential_sample _ Hl Hv He).
Defined.

(** X9 at the three sample placemarks. *)
Lemma processKMLData_record_shapes_witness :
  exists st',
    processKMLData exponential_sample samplePlacemarks emptyState = Ok st'
    /\ Forall recordShape (elements st').
Proof.
  eexists. split; [reflexivity|].
  apply (@processKMLData_record_shapes exponential_sample samplePlacemarks
           emptyState).
  reflexivity.
Defined.

(** X10 at the sample placemarks, cut after the first. *)
Lemma processKMLData_append_witness :
  exists s1 s2,
    processKMLData exponential_sample [pointPlacemark] emptyState = Ok s1
    /\ processKMLData exponential_sample [mixedPlacemark; multiPlacemark]
         emptyState = Ok s2
    /\ exists c1 c2,
         summary s1 = Some c1
         /\ summary s2 = Some c2
         /\ processKMLData exponential_sample
              ([pointPlacemark] ++ [mixedPlacemark; multiPlacemark])
              emptyState
            = Ok (mkState (elements s1 ++ elements s2)
                    (Some (plusCounts c1 c2)) false false
                    (console emptyState)).
Proof.
  do 2 eexists. split; [reflexivity|]. split; [reflexivity|].
  apply (@processKMLData_append exponential_sample [pointPlacemark]
           [mixedPlacemark; multiPlacemark] emptyState);
    reflexivity.
Defined.

(** X12 at a text answered with the sample placemarks, uploaded first on
    the initial state, then over an earlier upload. *)
Lemma handleFileUpload_replaces_witness :
  exists s1,
    truthy (fst (parser_track "<kml/>")) = false
    /\ handleFileUpload exponential_sample parser_track
         (Some "<kml/>"%string) emptyState = Ok s1
    /\ handleFileUpload exponential_sample parser_track
         (Some "<kml/>"%string) loadedState
       = Ok (mkState (elements s1) (summary s1) false false
               (console loadedState))
    /\ handleFileUpload exponential_sample parser_track
         (Some "<kml/>"%string) s1 = Ok s1.
Proof.
  eexists. split; [reflexivity|]. split; [reflexivity|].
  apply (@handleFileUpload_replaces exponential_sample parser_track
           "<kml/>" emptyState loadedState);
    reflexivity.
Defined.

(** X13 at the record of a Point at (2, 1): no marker is drawn. *)
Lemma renderElement_record_witness :
  recordShape
    (mkElement "Point" (JArr [JArr [JNum (Fin 2); JNum (Fin 1)]]) None
       (JStr "Point"))
  /\ renderElement 0
       (mkElement "Point" (JArr [JArr [JNum (Fin 2); JNum (Fin 1)]]) None
          (JStr "Point"))
     = Ok None.
Proof.
  assert (H : recordShape
                (mkElement "Point"
                   (JArr [JArr [JNum (Fin 2); JNum (Fin 1)]]) None
                   (JStr "Point"))).
  { split; [reflexivity|]. left. split; [reflexivity|].
    split; [reflexivity|].
    exists [JArr [JNum (Fin 2); JNum (Fin 1)]]. split; [reflexivity|].
    split; [|simpl; lia].
    apply Forall_cons; [reflexivity | apply Forall_nil]. }
  split; [exact H|].
  exact (@renderElement_record 0 _ H).
Defined.

(** X14 after an upload answered with the sample placemarks. *)
Lemma reachable_consistent_witness :
  exists st,
    handle exponential_sample parser_track emptyState
      (Upload (Some "<kml/>"%string)) = Ok st
    /\ reachable exponential_sample parser_track st
    /\ Forall recordShape (elements st)
    /\ (showSummary st = false \/ showDetailed st = false)
    /\ (summary st = None -> elements st = []).
Proof.
  eexists. split; [reflexivity|].
  match goal with
  | |- reachable _ _ ?st /\ _ =>
      assert (H : reachable exponential_sample parser_track st)
        by (apply (@reach_next exponential_sample parser_track emptyState
                     (Upload (Some "<kml/>"%string)));
            [apply reach_first | reflexivity])
  end.
  split; [exact H|].
  exact (@reachable_consistent exponential_sample parser_track _ H).
Defined.

(** X15 after the same upload and a click on Detailed: the map shows the
    line of the second placemark and nothing of the other two records. *)
Lemma render_reachable_witness :
  exists s1 st,
    handle exponential_sample parser_track emptyState
      (Upload (Some "<kml/>"%string)) = Ok s1
    /\ handle exponential_sample parser_track s1 ClickDetailed = Ok st
    /\ reachable exponential_sample parser_track st
    /\ exists view,
         render st = Ok view
         /\ (tableView view = None \/ mapView view = None)
         /\ (forall drawn,
               mapView view = Some drawn ->
               drawn = overlaysOf (elements st) /\ elements st <> []).
Proof.
  do 2 eexists. split; [reflexivity|]. split; [reflexivity|].
  match goal with
  | |- reachable _ _ ?st /\ _ =>
      assert (H : reachable exponential_sample parser_track st)
        by (eapply (@reach_next exponential_sample parser_track _
                      ClickDetailed);
            [eapply (@reach_next exponential_sample parser_track
                       emptyState (Upload (Some "<kml/>"%string)));
             [apply reach_first | reflexivity]
            | reflexivity])
  end.
  split; [exact H|].
  exact (@render_reachable exponential_sample parser_track _ H).
Defined.

(** X16 at the three sample placemarks: no row for Polygon, and a row for
    the two Point tags of which one gave no record. *)
Lemma renderTable_rows_witness :
  exists st',
    processKMLData exponential_sample samplePlacemarks emptyState = Ok st'
    /\ renderTable (clickSummary st')
       = Some [Some ("Point"%string, 2%nat);
               Some ("LineString"%string, 1%nat);
               None;
               Some ("MultiLineString"%string, 1%nat)].
Proof.
  eexists. split; [reflexivity|].
  apply (@renderTable_rows exponential_sample samplePlacemarks emptyState).
  reflexivity.
Defined.

(** X17 at a text answered with the sample placemarks. *)
Lemma handleFileUpload_returns_iff_witness :
  truthy (fst (parser_track "<kml/>")) = false
  /\ ((exists st',
         handleFileUpload exponential_sample parser_track
           (Some "<kml/>"%string) emptyState = Ok st')
      <-> (exists placemarks,
             placemarksOf (snd (parser_track "<kml/>")) = JArr placemarks
             /\ Forall wellFormed placemarks)).
Proof.
  split; [reflexivity|].
  apply (@handleFileUpload_returns_iff exponential_sample parser_track
           "<kml/>" emptyState).
  reflexivity.
Defined.

(* ================================================================== *)
(** * The length of a path on IEEE doubles: properties *)

Module DoubleFacts.

Import PrimFloat SpecFloat FloatOps FloatAxioms.
Import Double.

Local Open Scope list_scope.

(** ** Arithmetic of doubles *)

(** What follows from the specification of the operations: changing a
    sign changes no rounding, and neither does exchanging the operands of
    a product or of a sum. *)

Lemma SFopp_involutive (x : spec_float) : SFopp (SFopp x) = x.
Proof. destruct x; cbn [SFopp]; now rewrite ?negb_involutive. Qed.

Lemma opp_involutive (x : float) : (- - x)%float = x.
Proof. apply Prim2SF_inj. rewrite !opp_spec. apply SFopp_involutive. Qed.

Lemma round_aux_opp (s : bool) (m e : Z) (l : location) :
  binary_round_aux prec emax (negb s) m e l
  = SFopp (binary_round_aux prec emax s m e l).
Proof.
  unfold binary_round_aux.
  destruct (shr_fexp prec emax m e l) as [mrs' e'].
  destruct (shr_fexp prec emax _ e' loc_Exact) as [mrs'' e''].
  destruct (shr_m mrs''); [reflexivity | | reflexivity].
  destruct (e'' <=? emax - prec)%Z; reflexivity.
Qed.

Lemma round_opp (s : bool) (m : positive) (e : Z) :
  binary_round prec emax (negb s) m e
  = SFopp (binary_round prec emax s m e).
Proof.
  unfold binary_round.
  destruct (shl_align m e _) as [mz ez]. apply round_aux_opp.
Qed.

Lemma SFmul_comm (x y : spec_float) :
  SFmul prec emax x y = SFmul prec emax y x.
Proof.
  destruct x as [sx|sx| |sx mx ex], y as [sy|sy| |sy my ey];
    cbn [SFmul]; rewrite ?(xorb_comm sx sy); try reflexivity.
  now rewrite (Pos.mul_comm mx my), (Z.add_comm ex ey).
Qed.

Lemma SFmul_opp_l (x y : spec_float) :
  SFmul prec emax (SFopp x) y = SFopp (SFmul prec emax x y).
Proof.
  destruct x as [sx|sx| |sx mx ex], y as [sy|sy| |sy my ey];
    cbn [SFmul SFopp]; rewrite <- ?negb_xorb_l; try reflexivity.
  apply round_aux_opp.
Qed.

Lemma SFdiv_opp_l (x y : spec_float) :
  SFdiv prec emax (SFopp x) y = SFopp (SFdiv prec emax x y).
Proof.
  destruct x as [sx|sx| |sx mx ex], y as [sy|sy| |sy my ey];
    cbn [SFdiv SFopp]; rewrite <- ?negb_xorb_l; try reflexivity.
  destruct (SFdiv_core_binary prec emax (Z.pos mx) ex (Z.pos my) ey)
    as [[mz ez] lz].
  apply round_aux_opp.
Qed.

Lemma SFadd_comm (x y : spec_float) :
  SFadd prec emax x y = SFadd prec emax y x.
Proof.
  destruct x as [sx|sx| |sx mx ex], y as [sy|sy| |sy my ey];
    cbn [SFadd]; try reflexivity.
  - now destruct sx, sy.
  - now destruct sx, sy.
  - now rewrite (Z.min_comm ex ey), Z.add_comm.
Qed.

(** [0 + a + b = 0 + b + a] *)
Lemma SFadd_two (a b : spec_float) :
  SFadd prec emax (SFadd prec emax (S754_zero false) a) b
  = SFadd prec emax (SFadd prec emax (S754_zero false) b) a.
Proof.
  destruct a as [sa|sa| |sa ma ea], b as [sb|sb| |sb mb eb];
    cbn [SFadd]; try reflexivity;
    try (destruct sa; cbn [SFadd]; reflexivity);
    try (destruct sb; cbn [SFadd]; reflexivity).
  - now destruct sa, sb.
  - now destruct sa, sb.
  - apply (SFadd_comm (S754_finite sa ma ea) (S754_finite sb mb eb)).
Qed.

(** [y - x] is the opposite of [x - y], or both are [+0]. *)
Lemma SFsub_swap (x y : spec_float) :
  SFsub prec emax y x = SFopp (SFsub prec emax x y)
  \/ (SFsub prec emax x y = S754_zero false
      /\ SFsub prec emax y x = S754_zero false).
Proof.
  destruct x as [sx|sx| |sx mx ex], y as [sy|sy| |sy my ey];
    cbn [SFsub SFopp]; rewrite ?negb_involutive; auto;
    try solve [destruct sx, sy; cbn [SFopp negb]; auto].
  rewrite (Z.min_comm ey ex).
  set (ez := Z.min ex ey).
  set (a := cond_Zopp sx (Z.pos (fst (shl_align mx ex ez)))).
  set (b := cond_Zopp sy (Z.pos (fst (shl_align my ey ez)))).
  replace (b - a)%Z with (- (a - b))%Z by lia.
  destruct (a - b)%Z as [|d|d]; cbn [Z.opp binary_normalize].
  - right. split; reflexivity.
  - left. apply (round_opp false).
  - left. now rewrite <- (round_opp true).
Qed.

Lemma mul_comm (x y : float) : (x * y)%float = (y * x)%float.
Proof. apply Prim2SF_inj. rewrite !mul_spec. apply SFmul_comm. Qed.

Lemma mul_opp_l (x y : float) : (- x * y)%float = (- (x * y))%float.
Proof.
  apply Prim2SF_inj. rewrite opp_spec, !mul_spec, opp_spec.
  apply SFmul_opp_l.
Qed.

Lemma mul_opp_r (x y : float) : (x * - y)%float = (- (x * y))%float.
Proof. now rewrite (mul_comm x), mul_opp_l, (mul_comm y). Qed.

Lemma mul_opp_opp (x y : float) : (- x * - y)%float = (x * y)%float.
Proof. now rewrite mul_opp_l, mul_opp_r, opp_involutive. Qed.

Lemma div_opp_l (x y : float) : (- x / y)%float = (- (x / y))%float.
Proof.
  apply Prim2SF_inj. rewrite opp_spec, !div_spec, opp_spec.
  apply SFdiv_opp_l.
Qed.

Lemma sub_swap (x y : float) :
  (y - x)%float = (- (x - y))%float
  \/ ((x - y)%float = 0%float /\ (y - x)%float = 0%float).
Proof.
  destruct (SFsub_swap (Prim2SF x) (Prim2SF y)) as [H | [H1 H2]].
  - left. apply Prim2SF_inj. now rewrite opp_spec, !sub_spec.
  - right. split; apply Prim2SF_inj; rewrite sub_spec; assumption.
Qed.

Lemma add_two (a b : float) : (0 + a + b)%float = (0 + b + a)%float.
Proof. apply Prim2SF_inj. rewrite !add_spec. apply SFadd_two. Qed.

(** The formula of the specification is the one of lines 53-63. *)
Lemma segment_is_haversine (E : Engine) (lat1 lon1 lat2 lon2 : float) :
  segment E lat1 lon1 lat2 lon2 = haversine E lat1 lon1 lat2 lon2.
Proof. reflexivity. Qed.

Lemma loop_body_pairs (E : Engine) (coords : list jsval) (length : float)
  (i : nat) (p q : jsval) :
  isPair p -> isPair q ->
  nth (i - 1) coords JUndefined = p ->
  nth i coords JUndefined = q ->
  loop_body E coords length i = Ok (step E length (p, q)).
Proof.
  intros [a [b ->]] [c [d ->]] Hp Hq.
  unfold loop_body, step, bothValid, distance. rewrite Hp, Hq.
  cbn [destructure2 nth bind fst snd latOf lonOf].
  rewrite segment_is_haversine.
  destruct (isValidCoordinate (JArr [a; b]));
    destruct (isValidCoordinate (JArr [c; d])); reflexivity.
Qed.

Lemma nth_last_of_prefix (pre rest : list jsval) (p : jsval) :
  nth (S (List.length pre) - 1) (pre ++ p :: rest) JUndefined = p.
Proof.
  replace (S (List.length pre) - 1)%nat with (List.length pre) by lia.
  apply nth_middle.
Qed.

Lemma nth_after_prefix (pre rest : list jsval) (p q : jsval) :
  nth (S (List.length pre)) (pre ++ p :: q :: rest) JUndefined = q.
Proof.
  replace (pre ++ p :: q :: rest) with ((pre ++ [p]) ++ q :: rest)
    by now rewrite <- app_assoc.
  replace (S (List.length pre)) with (List.length (pre ++ [p]))
    by (rewrite length_app; simpl; lia).
  apply nth_middle.
Qed.

(** The index loop is a walk along the consecutive pairs. *)
Lemma loop_is_fold (E : Engine) (rest pre : list jsval) (p : jsval)
  (length : float) :
  Forall isPair (p :: rest) ->
  foldM (loop_body E (pre ++ p :: rest))
    (seq (S (List.length pre)) (List.length rest)) length
  = Ok (fold_left (step E) (consecutive (p :: rest)) length).
Proof.
  revert pre p length.
  induction rest as [|q rest IH]; intros pre p length Hall; [reflexivity|].
  inversion Hall as [|? ? Hp Hrest]; subst.
  inversion Hrest as [|? ? Hq _]; subst.
  cbn [List.length seq foldM].
  rewrite (@loop_body_pairs E (pre ++ p :: q :: rest) length
             (S (List.length pre)) p q Hp Hq (nth_last_of_prefix _ _ _)
             (nth_after_prefix _ _ _ _)).
  cbn [bind consecutive fold_left].
  replace (pre ++ p :: q :: rest) with ((pre ++ [p]) ++ q :: rest)
    by now rewrite <- app_assoc.
  replace (S (List.length pre)) with (List.length (pre ++ [p]))
    by (rewrite length_app; simpl; lia).
  now apply IH.
Qed.

(** Skipping a pair is leaving its distance out of the terms. *)
Lemma steps_are_terms (E : Engine) (pairs : list (jsval * jsval))
  (length : float) :
  fold_left (step E) pairs length
  = fold_left add (map (distance E) (filter bothValid pairs)) length.
Proof.
  revert length. induction pairs as [|ends pairs IH]; intros length;
    [reflexivity|].
  cbn [fold_left filter]. unfold step at 2.
  destruct (bothValid ends); cbn [map fold_left]; apply IH.
Qed.

Lemma pathLength_from (E : Engine) (coords : list jsval) :
  Forall isPair coords ->
  pathLength E coords = Ok (sumOfSegments E coords).
Proof.
  intros Hall. unfold pathLength, sumOfSegments, total, terms.
  destruct coords as [|p rest]; [reflexivity|].
  cbn [List.length].
  replace (S (List.length rest) - 1)%nat with (List.length rest) by lia.
  pose proof (@loop_is_fold E rest [] p 0%float Hall) as Hloop.
  cbn [app List.length] in Hloop. rewrite Hloop.
  now rewrite steps_are_terms.
Qed.

Lemma calculateLength_sums (E : Engine) (coords : list jsval) :
  (2 <= List.length coords)%nat ->
  Forall isPair coords ->
  calculateLength E coords
  = Ok (JStr (toFixed2 E (sumOfSegments E coords))).
Proof.
  intros Hlen Hall. unfold calculateLength.
  destruct (Nat.ltb_spec (List.length coords) 2); [lia|].
  now rewrite pathLength_from.
Qed.


(* ------------------------------------------------------------------ *)
(** ** Cutting a path *)

Lemma consecutive_app (l1 l2 : list jsval) (p : jsval) :
  consecutive (l1 ++ p :: l2)
  = consecutive (l1 ++ [p]) ++ consecutive (p :: l2).
Proof.
  induction l1 as [|a l1 IH]; [reflexivity|].
  destruct l1 as [|b l1]; [reflexivity|].
  change (consecutive ((a :: b :: l1) ++ p :: l2))
    with ((a, b) :: consecutive ((b :: l1) ++ p :: l2)).
  rewrite IH. reflexivity.
Qed.

Lemma terms_app (E : Engine) (l1 l2 : list jsval) (p : jsval) :
  terms E (l1 ++ p :: l2) = terms E (l1 ++ [p]) ++ terms E (p :: l2).
Proof.
  unfold terms. now rewrite consecutive_app, filter_app, map_app.
Qed.

(** X5. A path cut at one of its points: the loop over the whole path
    goes on from the length it leaves over the first part, adding the
    segments of the second part in their order. *)
Theorem pathLength_split (E : Engine) (l1 l2 : list jsval) (p : jsval) :
  Forall isPair (l1 ++ p :: l2) ->
  exists x,
    pathLength E (l1 ++ [p]) = Ok x
    /\ pathLength E (l1 ++ p :: l2)
       = Ok (fold_left add (terms E (p :: l2)) x).
Proof.
  intros Hall. exists (sumOfSegments E (l1 ++ [p])). split.
  - apply pathLength_from. apply Forall_app in Hall as [H1 H2].
    apply Forall_app. split; [exact H1|].
    inversion H2; subst. now constructor.
  - rewrite (@pathLength_from E _ Hall). unfold sumOfSegments, total.
    now rewrite terms_app, fold_left_app.
Qed.

Lemma invalid_left (x q : jsval) :
  isValidCoordinate x = false -> bothValid (x, q) = false.
Proof. unfold bothValid. cbn [fst snd]. now intros ->. Qed.

Lemma invalid_right (x p : jsval) :
  isValidCoordinate x = false -> bothValid (p, x) = false.
Proof. unfold bothValid. cbn [fst snd]. intros ->. apply andb_false_r. Qed.

Lemma terms_after_invalid (E : Engine) (x : jsval) (l2 : list jsval) :
  isValidCoordinate x = false -> terms E (x :: l2) = terms E l2.
Proof.
  intros Hx. unfold terms. destruct l2 as [|q l2]; [reflexivity|].
  cbn [consecutive filter]. now rewrite (@invalid_left x q Hx).
Qed.

Lemma terms_gap (E : Engine) (l1 l2 : list jsval) (x : jsval) :
  isValidCoordinate x = false ->
  terms E (l1 ++ x :: l2) = terms E l1 ++ terms E l2.
Proof.
  intros Hx. induction l1 as [|a l1 IH].
  - now apply terms_after_invalid.
  - destruct l1 as [|b l1].
    + cbn [app]. unfold terms at 1. cbn [consecutive filter].
      rewrite (@invalid_right x a Hx).
      now apply terms_after_invalid.
    + unfold terms in *.
      change (consecutive ((a :: b :: l1) ++ x :: l2))
        with ((a, b) :: consecutive ((b :: l1) ++ x :: l2)).
      change (consecutive (a :: b :: l1))
        with ((a, b) :: consecutive (b :: l1)).
      cbn [filter]. destruct (bothValid (a, b)); cbn [map];
        rewrite IH; reflexivity.
Qed.

(** X6. An invalid coordinate cuts the path in two: the two segments
    that touch it are left out and nothing bridges the gap, so that the
    loop goes on from the length it leaves over the part before, adding
    the segments of the part after. *)
Theorem pathLength_invalid_gap (E : Engine) (l1 l2 : list jsval) (x : jsval) :
  Forall isPair (l1 ++ x :: l2) ->
  isValidCoordinate x = false ->
  exists a,
    pathLength E l1 = Ok a
    /\ pathLength E (l1 ++ x :: l2) = Ok (fold_left add (terms E l2) a).
Proof.
  intros Hall Hx. exists (sumOfSegments E l1). split.
  - apply pathLength_from. now apply Forall_app in Hall as [H1 _].
  - rewrite (@pathLength_from E _ Hall). unfold sumOfSegments, total.
    now rewrite (@terms_gap E l1 l2 x Hx), fold_left_app.
Qed.

(* ------------------------------------------------------------------ *)
(** ** Reversal *)

Lemma half_angle_opp (u : float) :
  (radians (- u) / 2)%float = (- (radians u / 2))%float.
Proof. unfold radians. now rewrite mul_opp_l, !div_opp_l. Qed.

Lemma sin_half_swap (E : Engine) (Hodd : oddSine E) (x y : float) :
  let s u := Math_sin E (radians u / 2) in
  s (x - y)%float = (- s (y - x))%float \/ s (x - y)%float = s (y - x)%float.
Proof.
  cbn zeta. destruct (sub_swap y x) as [H | [H1 H2]].
  - left. now rewrite H, half_angle_opp, (Hodd _).
  - right. now rewrite H1, H2.
Qed.

(** The symmetry of the haversine formula, rounding included. *)
Lemma haversine_sym (E : Engine) (Hodd : oddSine E)
  (lat1 lon1 lat2 lon2 : float) :
  haversine E lat2 lon2 lat1 lon1 = haversine E lat1 lon1 lat2 lon2.
Proof.
  unfold haversine. cbn zeta.
  rewrite (mul_comm (Math_cos E (radians lat2))).
  destruct (@sin_half_swap E Hodd lat1 lat2) as [-> | ->];
    destruct (@sin_half_swap E Hodd lon1 lon2) as [-> | ->];
    now rewrite ?mul_opp_opp, ?mul_opp_r, ?mul_opp_l, ?opp_involutive.
Qed.

Lemma distance_backwards (E : Engine) (Hodd : oddSine E)
  (ends : jsval * jsval) :
  distance E (backwards ends) = distance E ends.
Proof.
  unfold distance, backwards. cbn [fst snd]. now apply haversine_sym.
Qed.

Lemma bothValid_backwards (ends : jsval * jsval) :
  bothValid (backwards ends) = bothValid ends.
Proof. unfold bothValid, backwards. cbn [fst snd]. apply andb_comm. Qed.

Lemma consecutive_snoc (l : list jsval) (x y : jsval) :
  consecutive (l ++ [x; y]) = consecutive (l ++ [x]) ++ [(x, y)].
Proof. now rewrite consecutive_app. Qed.

Lemma consecutive_rev (l : list jsval) :
  consecutive (rev l) = rev (map backwards (consecutive l)).
Proof.
  induction l as [|p l IH]; [reflexivity|].
  destruct l as [|q rest]; [reflexivity|].
  change (rev (p :: q :: rest)) with ((rev rest ++ [q]) ++ [p]).
  rewrite <- app_assoc. cbn [app]. rewrite consecutive_snoc.
  change (rev rest ++ [q]) with (rev (q :: rest)). rewrite IH.
  reflexivity.
Qed.

Lemma filter_backwards (pairs : list (jsval * jsval)) :
  filter bothValid (map backwards pairs)
  = map backwards (filter bothValid pairs).
Proof.
  induction pairs as [|ends pairs IH]; [reflexivity|].
  cbn [map filter]. rewrite bothValid_backwards.
  destruct (bothValid ends); cbn [map]; now rewrite IH.
Qed.

(** The reversed list has the same terms, in the reverse order. *)
Lemma terms_rev (E : Engine) (Hodd : oddSine E) (coords : list jsval) :
  terms E (rev coords) = rev (terms E coords).
Proof.
  unfold terms.
  rewrite consecutive_rev, filter_rev, filter_backwards, map_rev, map_map.
  f_equal. apply map_ext. intros ends. now apply distance_backwards.
Qed.

Lemma length_terms (E : Engine) (coords : list jsval) :
  (List.length (terms E coords) <= List.length coords - 1)%nat.
Proof.
  unfold terms. rewrite length_map.
  eapply Nat.le_trans; [apply filter_length_le|].
  induction coords as [|p coords IH]; [reflexivity|].
  destruct coords as [|q rest]; [reflexivity|].
  cbn [consecutive List.length] in *. lia.
Qed.

(** Up to two terms, the order does not matter. *)
Lemma total_rev_short (ts : list float) :
  (List.length ts <= 2)%nat -> total (rev ts) = total ts.
Proof.
  destruct ts as [|a [|b [|c ts]]]; cbn [List.length]; intros H;
    try reflexivity; [|lia].
  unfold total. cbn [rev app fold_left]. apply add_two.
Qed.

(** C7 (as amended). On an engine whose [Math.sin] is odd, the reversed
    list of coordinates has the segment lengths of the list itself in the
    reverse order, so that [calculateLength] gives for it the two-decimal
    form of the sum of the same terms, accumulated from 0 in the opposite
    order. That is the result for the list itself when the list has at
    most three coordinates. *)
Theorem calculateLength_rev (E : Engine) (coords : list jsval) :
  oddSine E ->
  Forall isPair coords ->
  terms E (rev coords) = rev (terms E coords)
  /\ ((2 <= List.length coords)%nat ->
      calculateLength E coords
      = Ok (JStr (toFixed2 E (total (terms E coords))))
      /\ calculateLength E (rev coords)
         = Ok (JStr (toFixed2 E (total (rev (terms E coords))))))
  /\ ((List.length coords <= 3)%nat ->
      calculateLength E (rev coords) = calculateLength E coords).
Proof.
  intros Hodd Hall.
  assert (Hfwd : (2 <= List.length coords)%nat ->
                 calculateLength E coords
                 = Ok (JStr (toFixed2 E (total (terms E coords)))))
    by (intros Hlen; now apply calculateLength_sums).
  assert (Hbwd : (2 <= List.length coords)%nat ->
                 calculateLength E (rev coords)
                 = Ok (JStr (toFixed2 E (total (rev (terms E coords)))))).
  { intros Hlen. rewrite <- (@terms_rev E Hodd coords).
    apply calculateLength_sums; [now rewrite length_rev|].
    now apply Forall_rev. }
  split; [exact (@terms_rev E Hodd coords)|]. split; [auto|].
  intros Hshort.
  destruct (Nat.lt_ge_cases (List.length coords) 2) as [Hlt | Hge].
  - unfold calculateLength. rewrite length_rev.
    apply Nat.ltb_lt in Hlt. now rewrite Hlt.
  - rewrite (Hfwd Hge), (Hbwd Hge), total_rev_short; [reflexivity|].
    pose proof (@length_terms E coords). lia.
Qed.

(* ------------------------------------------------------------------ *)
(** ** Closed instances on doubles *)

Lemma signbit_opp (x : float) :
  Prim2SF x <> S754_nan -> signbit (- x) = negb (signbit x).
Proof.
  unfold signbit. rewrite opp_spec.
  destruct (Prim2SF x); cbn [SFopp]; congruence.
Qed.

Lemma only_one_nan (x : float) : Prim2SF x = S754_nan -> x = nan.
Proof. intros H. rewrite <- (SF2Prim_Prim2SF x), H. reflexivity. Qed.

(** The sine of the sample engine is odd. *)
Lemma sin_sample_odd : oddSine engine_sample.
Proof.
  intros x. cbn [Math_sin engine_sample]. unfold sin_sample.
  destruct (Prim2SF x) eqn:Hx;
    try (rewrite signbit_opp by congruence;
         destruct (signbit x); cbn [negb];
         now rewrite opp_involutive).
  apply only_one_nan in Hx. subst x. reflexivity.
Qed.

Lemma track_pairs : Forall isPair track.
Proof. repeat (apply Forall_cons; [unfold isPair; eauto|]). constructor. Qed.

Lemma shortTrack_pairs : Forall isPair shortTrack.
Proof. repeat (apply Forall_cons; [unfold isPair; eauto|]). constructor. Qed.


(** The known value of the specification, on doubles: one degree of
    longitude on the equator measures 111.19 km. *)
Example one_degree_on_doubles :
  calculateLength engine_sample oneDegree = Ok (JStr "111.19").
Proof. vm_compute. reflexivity. Qed.

(** C7, refuted as stated: along the track (0, 0), (0, 64.3),
    (25.7, 29.3), (0, 86.7) the three segments add up to 18645.725 (just
    below) in the order of the list and to 18645.725000000002 in the
    opposite order, and the two results differ in their last digit. *)
Lemma reversal_changes_the_last_digit :
  calculateLength engine_sample track = Ok (JStr "18645.72")
  /\ calculateLength engine_sample (rev track) = Ok (JStr "18645.73")
  /\ calculateLength engine_sample (rev track)
     <> calculateLength engine_sample track.
Proof.
  assert (H1 : calculateLength engine_sample track = Ok (JStr "18645.72"))
    by (vm_compute; reflexivity).
  assert (H2 : calculateLength engine_sample (rev track)
               = Ok (JStr "18645.73"))
    by (vm_compute; reflexivity).
  split; [exact H1|]. split; [exact H2|].
  rewrite H1, H2. discriminate.
Qed.

(** C7 (as amended) at the first three points of the track. *)
Lemma calculateLength_rev_witness :
  oddSine engine_sample
  /\ Forall isPair shortTrack
  /\ terms engine_sample (rev shortTrack)
     = rev (terms engine_sample shortTrack)
  /\ calculateLength engine_sample (rev shortTrack)
     = calculateLength engine_sample shortTrack
  /\ calculateLength engine_sample shortTrack = Ok (JStr "11867.67").
Proof.
  split; [exact sin_sample_odd|]. split; [exact shortTrack_pairs|].
  destruct (@calculateLength_rev engine_sample shortTrack sin_sample_odd
              shortTrack_pairs) as [Hterms [_ Hshort]].
  split; [exact Hterms|]. split; [apply Hshort; cbn; lia|].
  vm_compute. reflexivity.
Defined.

(** X5 at the track, cut at its second point. *)
Lemma pathLength_split_witness :
  Forall isPair
    ([trackPoint 0] ++ trackPoint 1 :: [trackPoint 2; trackPoint 3])
  /\ exists x,
       pathLength engine_sample ([trackPoint 0] ++ [trackPoint 1]) = Ok x
       /\ pathLength engine_sample
            ([trackPoint 0] ++ trackPoint 1
             :: [trackPoint 2; trackPoint 3])
          = Ok (fold_left add
                  (terms engine_sample
                     (trackPoint 1 :: [trackPoint 2; trackPoint 3]))
                  x).
Proof.
  split; [exact track_pairs|].
  exact (@pathLength_split engine_sample [trackPoint 0]
           [trackPoint 2; trackPoint 3] (trackPoint 1) track_pairs).
Defined.

(** X6 at the track with a point without latitude put in its middle: the
    first and the last segment remain. *)
Lemma pathLength_invalid_gap_witness :
  Forall isPair
    ([trackPoint 0; trackPoint 1] ++ noLatitude
     :: [trackPoint 2; trackPoint 3])
  /\ isValidCoordinate noLatitude = false
  /\ exists a,
       pathLength engine_sample [trackPoint 0; trackPoint 1] = Ok a
       /\ pathLength engine_sample
            ([trackPoint 0; trackPoint 1] ++ noLatitude
             :: [trackPoint 2; trackPoint 3])
          = Ok (fold_left add
                  (terms engine_sample [trackPoint 2; trackPoint 3]) a).
Proof.
  assert (H : Forall isPair
                ([trackPoint 0; trackPoint 1] ++ noLatitude
                 :: [trackPoint 2; trackPoint 3])).
  { cbv [app trackPoint track nth noLatitude].
    repeat (apply Forall_cons; [unfold isPair; eauto|]). constructor. }
  split; [exact H|]. split; [reflexivity|].
  exact (@pathLength_invalid_gap engine_sample
           [trackPoint 0; trackPoint 1] [trackPoint 2; trackPoint 3]
           noLatitude H eq_refl).
Defined.

(** The same, in figures: 7149.83 km and 6778.05 km, the middle segments
    left out. *)
Example gap_in_figures :
  calculateLength engine_sample
    ([trackPoint 0; trackPoint 1] ++ noLatitude
     :: [trackPoint 2; trackPoint 3])
  = Ok (JStr "13927.88").
Proof. vm_compute. reflexivity. Qed.

End DoubleFacts.
